(** * testgres: backups of PostgreSQL test nodes

    A shallow embedding of [testgres/backup.py] (class [NodeBackup]) and of
    the collaborators it calls, with the properties of the backup
    subsystem: copy-or-consume spawning, exhaustion, cleanup.

    Python objects with mutable attributes are modelled by explicit state
    passing: a method of [NodeBackup] is a computation over the pair of the
    backup object ([self]) and the world (file system, port registry, heap
    of node objects, trace of external tools).  An exception leaves the
    state as it was at the [raise], exactly as in Python. *)

From stdpp Require Import gmap strings list pretty.

Set Default Proof Using "Type".
Set Warnings "-register-all,-abstract-large-number".

(** ** File system

    Directory trees.  [os.path.join base name] with a one-component
    relative [name] is [base ++ [name]]. *)

Definition path : Type := list string.

Inductive entry : Type :=
  | File (content : string)
  | Dir (children : gmap string entry).

Definition os_path_join (base : path) (name : string) : path := base ++ [name].

Fixpoint fs_lookup (t : entry) (p : path) : option entry :=
  match p with
  | [] => Some t
  | n :: p' =>
      match t with
      | Dir ch => match ch !! n with Some c => fs_lookup c p' | None => None end
      | File _ => None
      end
  end.

Definition fs_exists (t : entry) (p : path) : Prop := is_Some (fs_lookup t p).

Definition os_path_exists (t : entry) (p : path) : bool :=
  match fs_lookup t p with Some _ => true | None => false end.

Definition os_path_isdir (t : entry) (p : path) : bool :=
  match fs_lookup t p with Some (Dir _) => true | _ => false end.

(** Put [new] at [p], creating the missing directories on the way (as
    [os.makedirs] does); [None] when a component of [p] is a regular file. *)
Fixpoint fs_install (t : entry) (p : path) (new : entry) : option entry :=
  match p with
  | [] => Some new
  | n :: p' =>
      match t with
      | File _ => None
      | Dir ch =>
          match fs_install (default (Dir ∅) (ch !! n)) p' new with
          | Some c' => Some (Dir (<[n := c']> ch))
          | None => None
          end
      end
  end.

(** Remove the entry at [p] with everything below it; nothing happens when
    [p] does not exist. *)
Fixpoint fs_remove (t : entry) (p : path) : entry :=
  match p with
  | [] => Dir ∅
  | n :: p' =>
      match t with
      | File _ => t
      | Dir ch =>
          match p' with
          | [] => Dir (delete n ch)
          | _ =>
              match ch !! n with
              | Some c => Dir (<[n := fs_remove c p']> ch)
              | None => t
              end
          end
      end
  end.

(** ** Exceptions and the state-and-exception monad *)

Inductive Exn : Type :=
  | BackupException (msg : string) (cause : option Exn)
  | ExecUtilException (msg : string)
  | PortAllocationError
  | OSError (msg : string)
  | AttributeError (msg : string)
  | QueryShapeError
  | QueryExecutionError (msg : string)
  | PollTimeout.

Inductive result (A : Type) : Type :=
  | Raised (e : Exn)
  | Returned (a : A).
Arguments Raised {A} e.
Arguments Returned {A} a.

Definition M (S A : Type) : Type := S → result A * S.

Global Instance M_ret {S} : MRet (M S) := λ A a s, (Returned a, s).

Global Instance M_bind {S} : MBind (M S) := λ A B k m s,
  match m s with
  | (Returned a, s') => k a s'
  | (Raised e, s') => (Raised e, s')
  end.

Definition raise {S A} (e : Exn) : M S A := λ s, (Raised e, s).
Definition get {S} : M S S := λ s, (Returned s, s).
Definition put {S} (s : S) : M S unit := λ _, (Returned tt, s).
Definition gets {S A} (f : S → A) : M S A := λ s, (Returned (f s), s).
Definition modify {S} (f : S → S) : M S unit := λ s, (Returned tt, f s).

(** [try: m except Exception as e: h e] *)
Definition try_except {S A} (m : M S A) (h : Exn → M S A) : M S A := λ s,
  match m s with
  | (Raised e, s') => h e s'
  | (Returned a, s') => (Returned a, s')
  end.

(** [raise_from(new, e)] of [six]: raise [new] with [e] as its cause. *)
Definition raise_from {S A} (mk : option Exn → Exn) (e : Exn) : M S A :=
  raise (mk (Some e)).

(** ** Nodes, backups and the world *)

Inductive NodeStatus : Type := Running | Stopped | Uninitialized.

(** The cast of a [NodeStatus] to [bool]: only [Running] is true
    ([test_status]). *)
Definition NodeStatus_bool (s : NodeStatus) : bool :=
  match s with Running => true | Stopped | Uninitialized => false end.

Module PostgresNode.
Record t : Type := mk {
  name : string;
  host : string;
  port : nat;
  base_dir : path;
  _should_rm_dirs : bool;
  _use_logging : bool;
  master : option nat;
  state : NodeStatus
}.
End PostgresNode.

Module NodeBackup.
Record t : Type := mk {
  original_node : nat;
  base_dir : path;
  username : string;
  _available : bool
}.
End NodeBackup.

(** Node objects live in a heap and are named by references, so that the
    master of a replica and the original node of a backup are the same
    object. *)
Record World : Type := mkWorld {
  fs : entry;
  bound_ports : gset nat;
  nodes : gmap nat PostgresNode.t;
  utility_calls : list (list string * path)
}.

Record BackupSt : Type := mkSt {
  self : NodeBackup.t;
  world : World
}.

Definition set_fs (f : entry) (w : World) : World :=
  mkWorld f (bound_ports w) (nodes w) (utility_calls w).

Definition set_available (b : bool) (bk : NodeBackup.t) : NodeBackup.t :=
  NodeBackup.mk (NodeBackup.original_node bk) (NodeBackup.base_dir bk)
                (NodeBackup.username bk) b.

(** Run a computation on the world inside a method of the backup. *)
Definition in_world {A} (m : M World A) : M BackupSt A := λ st,
  let '(r, w') := m (world st) in (r, mkSt (self st) w').

Definition set_nodes (ns : gmap nat PostgresNode.t) (w : World) : World :=
  mkWorld (fs w) (bound_ports w) ns (utility_calls w).

(** ** The environment

    What the module imports and does not define: the constants of
    [consts.py], the helpers of [utils.py], and the choices the operating
    system makes ([tempfile], failures of a copy, external tools, the port
    probe). *)
Class Env : Type := {
  DATA_DIR : string;
  BACKUP_LOG_FILE : string;
  DEFAULT_XLOG_METHOD : string;
  RECOVERY_CONF_FILE : string;
  default_username : string;
  get_bin_path : string → string;
  generate_app_name : nat → string;
  (** [tempfile.gettempdir()] *)
  gettempdir : path;
  (** the name [tempfile.mkdtemp] settles on, given the names taken *)
  mkdtemp_name : gset string → string;
  mkdtemp_name_fresh : ∀ X, mkdtemp_name X ∉ X;
  (** whether the operating system makes this copy fail (disk full,
      permissions, ...): the exception, and what was copied before it *)
  copytree_fault : entry → path → path → option (Exn * option entry);
  (** an external tool: exit code, output, file system it leaves *)
  run_process : list string → entry → nat * string * entry;
  (** the free port the registry picks, if any *)
  select_port : gset nat → option nat;
  select_port_free : ∀ X p, select_port X = Some p → p ∉ X
}.

Definition nl : string := String (Ascii.ascii_of_nat 10) EmptyString.

Definition path_to_string (p : path) : string :=
  String.concat "" ((λ c, "/" +:+ c) <$> p).

(** [a or b] on strings: the empty string and [None] are falsy. *)
Definition str_or (a : option string) (b : string) : string :=
  match a with
  | Some s => if decide (s = "") then b else s
  | None => b
  end.

(** The exception an exhausted backup answers a spawn with. *)
Definition exhausted : Exn := BackupException "Backup is exhausted" None.

Section Testgres.
Context {E : Env}.

(** *** Python's standard library *)

(** [tempfile.mkdtemp()]: a new, empty directory under the temporary
    directory, with a name not in use there. *)
Definition tempfile_mkdtemp : M World path := λ w,
  match fs_lookup (fs w) gettempdir with
  | Some (Dir ch) =>
      let d := os_path_join gettempdir (mkdtemp_name (dom ch)) in
      match fs_install (fs w) d (Dir ∅) with
      | Some f' => (Returned d, set_fs f' w)
      | None => (Raised (OSError "Not a directory"), w)
      end
  | _ => (Raised (OSError "No usable temporary directory"), w)
  end.

(** [shutil.copytree(src, dst)]: [src] must be a directory and [dst] must
    not exist; the whole tree under [src] is copied to [dst], created
    with its missing parents.  A failure may leave a partial copy. *)
Definition shutil_copytree (src dst : path) : M World unit := λ w,
  match fs_lookup (fs w) src with
  | Some (Dir ch) =>
      if os_path_exists (fs w) dst then (Raised (OSError "File exists"), w)
      else
        match copytree_fault (fs w) src dst with
        | Some (e, part) =>
            (Raised e,
             set_fs (default (fs w) (part ≫= fs_install (fs w) dst)) w)
        | None =>
            match fs_install (fs w) dst (Dir ch) with
            | Some f' => (Returned tt, set_fs f' w)
            | None => (Raised (OSError "Not a directory"), w)
            end
        end
  | _ => (Raised (OSError "No such file or directory"), w)
  end.

(** [shutil.rmtree(path, ignore_errors)]: removing a directory that is
    there is taken to succeed; a path that is no directory is an error,
    which [ignore_errors] silences. *)
Definition shutil_rmtree (p : path) (ignore_errors : bool) : M World unit := λ w,
  if os_path_isdir (fs w) p then (Returned tt, set_fs (fs_remove (fs w) p) w)
  else if ignore_errors then (Returned tt, w)
  else (Raised (OSError "No such file or directory"), w).

(** [with open(f, "a") as out: out.write(text)] *)
Definition open_append (f : path) (text : string) : M World unit := λ w,
  match f with
  | [] => (Raised (OSError "Is a directory"), w)
  | _ =>
      if os_path_isdir (fs w) (removelast f) then
        match fs_lookup (fs w) f with
        | Some (Dir _) => (Raised (OSError "Is a directory"), w)
        | o =>
            let old := match o with Some (File c) => c | _ => "" end in
            match fs_install (fs w) f (File (old +:+ text)) with
            | Some f' => (Returned tt, set_fs f' w)
            | None => (Raised (OSError "Not a directory"), w)
            end
        end
      else (Raised (OSError "No such file or directory"), w)
  end.

(** *** The collaborators of [backup.py] *)

(** Modelled from the spec: [utils.execute_utility], whose source is
    missing.  The tool runs as a subprocess, its output is
    appended to the log file, and an exit status other than zero is
    raised as an exception carrying the output. *)
Definition _execute_utility (args : list string) (logfile : path) : M World string :=
  w ← get;
  let '(code, out, f') := run_process args (fs w) in
  put (mkWorld f' (bound_ports w) (nodes w) (utility_calls w ++ [(args, logfile)]));;
  open_append logfile out;;
  match code with
  | O => mret out
  | S _ => raise (ExecUtilException out)
  end.

(** Modelled from the spec: the port registry of [utils.py], whose
    source is missing.  [reserve] picks a port that is not claimed
    and marks it claimed, or fails. *)
Definition reserve_port : M World nat := λ w,
  match select_port (bound_ports w) with
  | Some p =>
      (Returned p,
       mkWorld (fs w) ({[p]} ∪ bound_ports w) (nodes w) (utility_calls w))
  | None => (Raised PortAllocationError, w)
  end.

(** A reference to a node object.  References held by live objects are
    never dangling; the exception is there to keep the function total. *)
Definition get_node (n : nat) : M World PostgresNode.t := λ w,
  match nodes w !! n with
  | Some N => (Returned N, w)
  | None => (Raised (AttributeError "dangling reference"), w)
  end.

Definition update_node (n : nat) (f : PostgresNode.t → PostgresNode.t) : M World unit :=
  N ← get_node n;
  modify (λ w, set_nodes (<[n := f N]> (nodes w)) w).

(** Modelled from the spec: the constructor of class [PostgresNode] of
    [node.py], whose source is missing.  A new instance has a name
    (generated when none is given), a port reserved from the registry,
    the base directory it is given, no master, and does not own its
    directories (what else the constructor does to the file system is
    not known and not modelled);
    it is [Stopped] when its data directory is there and [Uninitialized]
    otherwise. *)
Definition PostgresNode_new (name : option string) (base_dir : path)
    (use_logging : bool) : M World nat :=
  port ← reserve_port;
  w ← get;
  let n := fresh (dom (nodes w)) in
  let st := if os_path_isdir (fs w) (os_path_join base_dir DATA_DIR)
            then Stopped else Uninitialized in
  put (set_nodes (<[n := PostgresNode.mk (str_or name (generate_app_name n))
                          "127.0.0.1" port base_dir false use_logging None st]>
                    (nodes w)) w);;
  mret n.

(** Modelled from the spec: [PostgresNode.status], the state of the
    instance. *)
Definition status (n : nat) : M World NodeStatus :=
  N ← get_node n; mret (PostgresNode.state N).

Definition set_should_rm_dirs (b : bool) (N : PostgresNode.t) : PostgresNode.t :=
  PostgresNode.mk (PostgresNode.name N) (PostgresNode.host N) (PostgresNode.port N)
    (PostgresNode.base_dir N) b (PostgresNode._use_logging N)
    (PostgresNode.master N) (PostgresNode.state N).

Definition set_master (m : option nat) (N : PostgresNode.t) : PostgresNode.t :=
  PostgresNode.mk (PostgresNode.name N) (PostgresNode.host N) (PostgresNode.port N)
    (PostgresNode.base_dir N) (PostgresNode._should_rm_dirs N)
    (PostgresNode._use_logging N) m (PostgresNode.state N).

(** Modelled from the spec: [PostgresNode.data_dir], the data directory
    under the base directory. *)
Definition data_dir (N : PostgresNode.t) : path :=
  os_path_join (PostgresNode.base_dir N) DATA_DIR.

(** Modelled from the spec: [PostgresNode.append_conf] adds the given
    text at the end of a configuration file of the data directory.  The
    spec has no sentence on it; whether the method ends the text with a
    newline of its own is not known, and none is added here. *)
Definition append_conf (n : nat) (filename : string) (text : string) : M World unit :=
  N ← get_node n;
  open_append (os_path_join (data_dir N) filename) text.

(** Modelled from the spec: [PostgresNode._assign_master]. *)
Definition _assign_master (n : nat) (master : nat) : M World unit :=
  update_node n (set_master (Some master)).

Definition recovery_conf_line (name : string) (master_port : nat)
    (master_host : string) (username : string) : string :=
  "primary_conninfo='application_name=" +:+ name +:+ " port=" +:+ pretty master_port
    +:+ " user=" +:+ username +:+ " host=" +:+ master_host +:+ "'" +:+ nl
    +:+ "standby_mode=on" +:+ nl.

(** Modelled from the spec: [PostgresNode._create_recovery_conf] writes
    the configuration that designates the master as the streaming
    target, with the given user. *)
Definition _create_recovery_conf (n : nat) (username : string) : M World unit :=
  N ← get_node n;
  match PostgresNode.master N with
  | None => raise (AttributeError "node has no master")
  | Some m =>
      Mn ← get_node m;
      append_conf n RECOVERY_CONF_FILE
        (recovery_conf_line (PostgresNode.name N) (PostgresNode.port Mn)
           (PostgresNode.host Mn) username)
  end.

(** *** class [NodeBackup] *)

(** [NodeBackup.log_file] *)
Definition log_file (bk : NodeBackup.t) : path :=
  os_path_join (NodeBackup.base_dir bk) BACKUP_LOG_FILE.

(** [NodeBackup.__init__(node, base_dir, username, xlog_method)].  An
    argument left out is [None]; for [base_dir], [None] also stands for
    the empty string, which [or] treats alike. *)
Definition __init__ (node : nat) (base_dir : option path)
    (username : option string) (xlog_method : option string) : M World NodeBackup.t :=
  st ← status node;
  if negb (NodeStatus_bool st) then
    raise (BackupException "Node must be running" None)
  else
    let username := str_or username default_username in
    base_dir ← match base_dir with
               | Some d => mret d
               | None => tempfile_mkdtemp
               end;
    let self := NodeBackup.mk node base_dir username true in
    let data_dir := os_path_join (NodeBackup.base_dir self) DATA_DIR in
    N ← get_node node;
    let _params :=
      [ get_bin_path "pg_basebackup";
        "-p"; pretty (PostgresNode.port N);
        "-h"; PostgresNode.host N;
        "-U"; username;
        "-D"; path_to_string data_dir;
        "-X"; default DEFAULT_XLOG_METHOD xlog_method ] in
    _execute_utility _params (log_file self);;
    mret self.

Definition set_self_available (b : bool) (st : BackupSt) : BackupSt :=
  mkSt (set_available b (self st)) (world st).

(** [NodeBackup._prepare_dir(destroy)] *)
Definition _prepare_dir (destroy : bool) : M BackupSt path :=
  st ← get;
  if negb (NodeBackup._available (self st)) then
    raise (BackupException "Backup is exhausted" None)
  else
    let available := negb destroy in
    dest_base_dir ←
      (if available then
         dest_base_dir ← in_world tempfile_mkdtemp;
         let data1 := os_path_join (NodeBackup.base_dir (self st)) DATA_DIR in
         let data2 := os_path_join dest_base_dir DATA_DIR in
         try_except
           (in_world (shutil_copytree data1 data2))
           (λ e, raise_from (BackupException "Failed to copy files") e);;
         mret dest_base_dir
       else
         mret (NodeBackup.base_dir (self st)));
    modify (set_self_available available);;
    mret dest_base_dir.

(** [NodeBackup.spawn_primary(name=None, destroy=True, use_logging=False)]:
    [None] for [destroy] or [use_logging] is the argument left out. *)
Definition spawn_primary (name : option string) (destroy : option bool)
    (use_logging : option bool) : M BackupSt nat :=
  let destroy := default true destroy in
  let use_logging := default false use_logging in
  base_dir ← _prepare_dir destroy;
  node ← in_world (PostgresNode_new name base_dir use_logging);
  in_world (update_node node (set_should_rm_dirs true));;
  in_world (append_conf node "postgresql.conf" nl);;
  N ← in_world (get_node node);
  in_world (append_conf node "postgresql.conf"
              ("port = " +:+ pretty (PostgresNode.port N)));;
  mret node.

(** [NodeBackup.spawn_replica(name=None, destroy=True, use_logging=False)] *)
Definition spawn_replica (name : option string) (destroy : option bool)
    (use_logging : option bool) : M BackupSt nat :=
  let destroy := default true destroy in
  let use_logging := default false use_logging in
  node ← spawn_primary name (Some destroy) (Some use_logging);
  st ← get;
  in_world (_assign_master node (NodeBackup.original_node (self st)));;
  in_world (_create_recovery_conf node (NodeBackup.username (self st)));;
  mret node.

(** [NodeBackup.cleanup()] *)
Definition cleanup : M BackupSt unit :=
  st ← get;
  if NodeBackup._available (self st) then
    in_world (shutil_rmtree (NodeBackup.base_dir (self st)) true);;
    modify (set_self_available false)
  else
    mret tt.

(** [NodeBackup.__enter__()] and [NodeBackup.__exit__(type, value,
    traceback)]; the three arguments of the latter are not used. *)
Definition __enter__ : M BackupSt NodeBackup.t := gets self.

Definition __exit__ : M BackupSt unit := cleanup.

(** What [spawn_primary] does once the directory is prepared, as one
    computation on the world (see [spawn_primary_build_node]). *)
Definition build_node (name : option string) (base_dir : path)
    (use_logging : bool) : M World nat :=
  node ← PostgresNode_new name base_dir use_logging;
  update_node node (set_should_rm_dirs true);;
  append_conf node "postgresql.conf" nl;;
  N ← get_node node;
  append_conf node "postgresql.conf" ("port = " +:+ pretty (PostgresNode.port N));;
  mret node.

(** The methods a holder of the backup can call, for statements about
    every later call. *)
Inductive BackupCall : Type :=
  | CallSpawnPrimary (name : option string) (destroy use_logging : option bool)
  | CallSpawnReplica (name : option string) (destroy use_logging : option bool)
  | CallCleanup
  | CallExit.

Definition forget {S A} (m : M S A) : M S unit := λ s,
  let '(_, s') := m s in (Returned tt, s').

Definition run_call (c : BackupCall) : M BackupSt unit :=
  match c with
  | CallSpawnPrimary n d u => forget (spawn_primary n d u)
  | CallSpawnReplica n d u => forget (spawn_replica n d u)
  | CallCleanup => forget cleanup
  | CallExit => forget __exit__
  end.

(** Calls made one after the other, whatever each of them raises. *)
Definition run_calls (cs : list BackupCall) (st : BackupSt) : BackupSt :=
  foldl (λ s c, (run_call c s).2) st cs.

(** [spawn_primary(name, destroy=False, use_logging)] called for each
    pair of arguments in turn, with the outcome of each call. *)
Fixpoint spawn_many (args : list (option string * option bool)) (st : BackupSt)
    : list (result nat) * BackupSt :=
  match args with
  | [] => ([], st)
  | (name, use_logging) :: args' =>
      let '(r, st1) := spawn_primary name (Some false) use_logging st in
      let '(rs, st2) := spawn_many args' st1 in
      (r :: rs, st2)
  end.

(** What a node built by [spawn_primary] looks like. *)
Definition built_node (name : option string) (dir : path) (use_logging : bool)
    (n p : nat) (s : NodeStatus) : PostgresNode.t :=
  PostgresNode.mk (str_or name (generate_app_name n)) "127.0.0.1" p dir true
    use_logging None s.

(** What [spawn_replica] does to the instance that [spawn_primary]
    returned. *)
Definition wire_replica (n : nat) (bk : NodeBackup.t) : M World unit :=
  _assign_master n (NodeBackup.original_node bk);;
  _create_recovery_conf n (NodeBackup.username bk).



End Testgres.

(** ** The poll-until primitive

    [poll_query_until] is a method of [PostgresNode] in [node.py], whose
    source is missing; [test_poll_query_until] calls it.  It is
    modelled here from its specification. *)

Inductive scalar : Type :=
  | SNull
  | SBool (b : bool)
  | SInt (z : Z)
  | SText (s : string).

Global Instance scalar_eq_dec : EqDecision scalar.
Proof. solve_decision. Defined.

(** What one execution of the query gives: rows of scalar columns, nothing
    at all (a statement that returns no result), or an execution error. *)
Inductive query_outcome : Type :=
  | Rows (rows : list (list scalar))
  | NoResult
  | ExecutionError (msg : string).

Inductive expectation : Type :=
  | MatchAny
  | MatchNone
  | MatchValue (v : scalar).

(** The database as the poll sees it: the answer to each execution of the
    query, in order, and the number of executions so far. *)
Record Db : Type := mkDb {
  respond : nat → query_outcome;
  executed : nat
}.

(** Modelled from the spec: one execution of the query through the
    database connection. *)
Definition execute : M Db query_outcome := λ d,
  (Returned (respond d (executed d)), mkDb (respond d) (S (executed d))).

Inductive verdict : Type := Matched | Mismatch | Fatal (e : Exn).

(** Modelled from the spec: the comparison of the first scalar with the
    expected value, dispatched on the tag of the expectation. *)
Definition matches (expected : expectation) (v : scalar) : bool :=
  match expected with
  | MatchAny => true
  | MatchNone => bool_decide (v = SNull)
  | MatchValue x => bool_decide (v = x)
  end.

(** Modelled from the spec: what one attempt decides.  An empty result
    set, or a first row with other than exactly one column, is a shape
    error whatever attempts remain; an execution error is fatal unless
    the flag makes it count as a mismatch; with [MatchNone] a statement
    that returns nothing is a success. *)
Definition judge (expected : expectation) (retry_errors : bool)
    (o : query_outcome) : verdict :=
  match o with
  | ExecutionError msg =>
      if retry_errors then Mismatch else Fatal (QueryExecutionError msg)
  | NoResult =>
      match expected with
      | MatchNone => Matched
      | _ => Fatal QueryShapeError
      end
  | Rows [] => Fatal QueryShapeError
  | Rows (row :: _) =>
      match row with
      | [v] => if matches expected v then Matched else Mismatch
      | _ => Fatal QueryShapeError
      end
  end.

(** Modelled from the spec: the query is executed again after each
    mismatch until the attempts are used up, which is a timeout. *)
Fixpoint poll_loop (attempts_left : nat) (expected : expectation)
    (retry_errors : bool) : M Db unit :=
  match attempts_left with
  | O => raise PollTimeout
  | S k =>
      o ← execute;
      match judge expected retry_errors o with
      | Matched => mret tt
      | Fatal e => raise e
      | Mismatch => poll_loop k expected retry_errors
      end
  end.

(** Modelled from the spec: [pollQueryUntil], that is
    [PostgresNode.poll_query_until]. *)
Definition pollQueryUntil (max_attempts : nat) (expected : expectation)
    (retry_errors : bool) : M Db unit :=
  poll_loop max_attempts expected retry_errors.

(** Zero rows, or a first row with other than one column. *)
Definition wrong_shape (o : query_outcome) : Prop :=
  o = Rows [] ∨ ∃ row rest, o = Rows (row :: rest) ∧ length row ≠ 1.

(** The database after [k] more executions of the query. *)
Definition after (k : nat) (d : Db) : Db := mkDb (respond d) (executed d + k).

(** [select 3], a query without rows, and [select 1, 2]. *)
Definition db_select_3 : Db := mkDb (λ _, Rows [[SInt 3]]) 0.
Definition db_no_rows : Db := mkDb (λ _, Rows []) 0.
Definition db_two_columns : Db := mkDb (λ _, Rows [[SInt 1; SInt 2]]) 0.

(** ** A concrete environment

    Temporary directories live under [/tmp] and take the first name not
    in use; the port registry hands out the first port not claimed; no
    copy fails for reasons of the operating system; external tools exit
    with status zero, print nothing and leave the file system alone. *)

Definition fresh_port_free {X : gset nat} {p : nat} (Hp : Some (fresh X) = Some p)
    : p ∉ X :=
  match Hp in _ = o return match o with Some q => q ∉ X | None => True end with
  | eq_refl => is_fresh X
  end.

Definition env0 : Env := {|
  DATA_DIR := "data";
  BACKUP_LOG_FILE := "backup.log";
  DEFAULT_XLOG_METHOD := "fetch";
  RECOVERY_CONF_FILE := "recovery.conf";
  default_username := "postgres";
  get_bin_path := λ s, "/usr/bin/" +:+ s;
  generate_app_name := λ n, "app" +:+ pretty n;
  gettempdir := ["tmp"];
  mkdtemp_name := fresh;
  mkdtemp_name_fresh := is_fresh;
  copytree_fault := λ _ _ _, None;
  run_process := λ args f, (0, "", f);
  select_port := λ X, Some (fresh X);
  select_port_free := @fresh_port_free
|}.

Definition node0 : PostgresNode.t :=
  PostgresNode.mk "master" "127.0.0.1" 5432 ["srv"; "master"] true false None Running.

Definition node1 : PostgresNode.t :=
  PostgresNode.mk "idle" "127.0.0.1" 5433 ["srv"; "idle"] true false None Stopped.

(** A file system with [/tmp] and a backup in [/bak] whose data directory
    holds a [postgresql.conf]. *)
Definition fs0 : entry :=
  Dir {[ "tmp" := Dir ∅;
         "bak" := Dir {[ "data" := Dir {[ "postgresql.conf" := File "fsync = off" ]};
                         "backup.log" := File "" ]} ]}.

Definition world0 : World :=
  mkWorld fs0 {[ 5432; 5433 ]} {[ 0 := node0; 1 := node1 ]} [].

Definition backup0 : NodeBackup.t := NodeBackup.mk 0 ["bak"] "postgres" true.

Definition st0 : BackupSt := mkSt backup0 world0.

(** The same backup after its data directory was lost: every copy of it
    fails. *)
Definition fs_broken : entry := Dir {[ "tmp" := Dir ∅; "bak" := Dir ∅ ]}.

Definition st_broken : BackupSt :=
  mkSt backup0 (mkWorld fs_broken {[ 5432; 5433 ]} {[ 0 := node0; 1 := node1 ]} []).

(** An exhausted backup. *)
Definition st_exhausted : BackupSt := mkSt (set_available false backup0) world0.

(** ** The [with] statement, configuration files, and a helper of the tests *)

(** [with backup: body]: [__enter__], the body, and [__exit__] on every
    way out.  [__enter__] returns the backup itself, so the body works on
    the same object; [__exit__] returns [None], so an exception of the
    body is raised again once [__exit__] is done. *)
Definition with_backup {A} (body : M BackupSt A) : M BackupSt A := λ st,
  match __enter__ st with
  | (Raised e, st0) => (Raised e, st0)
  | (Returned _, st0) =>
      let '(r, st1) := body st0 in
      match __exit__ st1 with
      | (Raised e, st2) => (Raised e, st2)
      | (Returned _, st2) => (r, st2)
      end
  end.

(** What a regular file holds; the empty string for anything else. *)
Definition file_content (t : entry) (f : path) : string :=
  match fs_lookup t f with
  | Some (File c) => c
  | _ => ""
  end.

(** The configuration file [spawn_primary] writes the port to. *)
Definition postgresql_conf {E : Env} (base_dir : path) : path :=
  os_path_join (os_path_join base_dir DATA_DIR) "postgresql.conf".

(** The conditions of the state under which [spawn_primary(destroy=False)]
    gets as far as returning an instance: the temporary directory is
    there, the data directory of the backup is there and its
    [postgresql.conf], if any, is a regular file, and the temporary
    directory does not lie inside that data directory. *)
Definition spawn_ready {E : Env} (st : BackupSt) : Prop :=
  os_path_isdir (fs (world st)) gettempdir = true ∧
  (∃ ch, fs_lookup (fs (world st))
           (os_path_join (NodeBackup.base_dir (self st)) DATA_DIR) = Some (Dir ch) ∧
         ∀ x, ch !! "postgresql.conf" ≠ Some (Dir x)) ∧
  ¬ os_path_join (NodeBackup.base_dir (self st)) DATA_DIR `prefix_of` gettempdir.

(** An environment in which no copy is made to fail and the port
    registry always has a port left. *)
Definition env_reliable {E : Env} : Prop :=
  (∀ f src dst, copytree_fault f src dst = None) ∧
  (∀ X, is_Some (select_port X)).

(** *** [util_is_executable] of [tests/test_simple.py]

    Paths are strings here, as in the test; the operating system is what
    [os.path.exists] answers and what [os.environ] holds. *)

Record Os : Type := mkOs {
  os_exists : string → bool;
  os_environ : gmap string string
}.

(** A Python value, or the [KeyError] of a dictionary lookup. *)
Inductive or_KeyError (A : Type) : Type :=
  | KeyError (key : string)
  | Value (a : A).
Arguments KeyError {A} key.
Arguments Value {A} a.

Definition os_sep : Ascii.ascii := Ascii.ascii_of_nat 47.
Definition os_pathsep : Ascii.ascii := Ascii.ascii_of_nat 58.

Definition startswith (c : Ascii.ascii) (s : string) : bool :=
  match s with
  | String c' _ => bool_decide (c' = c)
  | EmptyString => false
  end.

Fixpoint endswith (c : Ascii.ascii) (s : string) : bool :=
  match s with
  | EmptyString => false
  | String c' EmptyString => bool_decide (c' = c)
  | String _ s' => endswith c s'
  end.

(** [os.path.join(a, b)] of [posixpath], on strings. *)
Definition posixpath_join (a b : string) : string :=
  if startswith os_sep b then b
  else if bool_decide (a = "") || endswith os_sep a then a +:+ b
  else a +:+ String os_sep b.

(** [s.split(sep)] for a separator of one character. *)
Fixpoint str_split (sep : Ascii.ascii) (s : string) : list string :=
  match s with
  | EmptyString => [""]
  | String c s' =>
      if bool_decide (c = sep) then "" :: str_split sep s'
      else
        match str_split sep s' with
        | piece :: pieces => String c piece :: pieces
        | [] => [String c ""]
        end
  end.

(** The [for] loop of [util_is_executable]: [Some true] is [return True],
    [None] is falling off the end of the function. *)
Fixpoint search_PATH (os : Os) (util : string) (paths : list string) : option bool :=
  match paths with
  | [] => None
  | path :: paths' =>
      let exe_file := posixpath_join path util in
      if os_exists os exe_file then Some true else search_PATH os util paths'
  end.

(** [util_is_executable(util)] *)
Definition util_is_executable {E : Env} (os : Os) (util : string)
    : or_KeyError (option bool) :=
  let exe_file := get_bin_path util in
  if os_exists os exe_file then Value (Some true)
  else
    match os_environ os !! "PATH" with
    | None => KeyError "PATH"
    | Some PATH => Value (search_PATH os util (str_split os_pathsep PATH))
    end.


(** An operating system with [/usr/bin/pg_ctl] and [/opt/pg/bin/psql]. *)
Definition os0 : Os :=
  mkOs (λ f, bool_decide (f = "/usr/bin/pg_ctl") || bool_decide (f = "/opt/pg/bin/psql"))
       {[ "PATH" := "/usr/local/bin:/opt/pg/bin" ]}.

(** * Properties *)

(** ** File system *)

Lemma os_path_join_inj a b n : os_path_join a n = os_path_join b n → a = b.
Proof. unfold os_path_join. intros Heq. by apply app_inj_tail in Heq as [-> _]. Qed.

Lemma fs_lookup_app t p q :
  fs_lookup t (p ++ q) = fs_lookup t p ≫= λ c, fs_lookup c q.
Proof.
  revert t. induction p as [|n p IH]; intros t; simpl; [done|].
  destruct t as [c|ch]; [done|]. destruct (ch !! n); [apply IH|done].
Qed.

Lemma fs_exists_app_l t p q : fs_exists t (p ++ q) → fs_exists t p.
Proof.
  unfold fs_exists. rewrite fs_lookup_app.
  destruct (fs_lookup t p); [eauto|]. intros [? ?]; discriminate.
Qed.

Lemma fs_install_lookup t p new t' :
  fs_install t p new = Some t' → fs_lookup t' p = Some new.
Proof.
  revert t t'. induction p as [|n p IH]; intros t t'; simpl.
  - congruence.
  - destruct t as [c|ch]; [done|].
    destruct (fs_install _ p new) as [c'|] eqn:E; [|done].
    intros [= <-]. simpl. rewrite lookup_insert_eq. eauto.
Qed.

Lemma fs_install_exists t p new t' q :
  fs_install t p new = Some t' →
  (∀ ch, fs_lookup t p ≠ Some (Dir ch)) →
  fs_exists t q → fs_exists t' q.
Proof.
  unfold fs_exists.
  revert t t' q. induction p as [|n p IH]; intros t t' q; simpl.
  - intros [= <-] Hf [e He]. destruct t as [c|ch]; [|by destruct (Hf ch)].
    destruct q; simpl in He; [by eexists|done].
  - destruct t as [c|ch]; [done|].
    destruct (fs_install _ p new) as [c'|] eqn:E; [|done].
    intros [= <-] Hf [e He]. destruct q as [|m q]; [by eexists|].
    simpl in *. destruct (decide (n = m)) as [->|Hne].
    + rewrite lookup_insert_eq. destruct (ch !! m) as [c|] eqn:Hc; [|done].
      simpl in E. eapply IH; [exact E|exact Hf|by eexists].
    + rewrite lookup_insert_ne by done. destruct (ch !! m); [by eexists|done].
Qed.

Lemma fs_install_lookup_ne t p new t' q :
  fs_install t p new = Some t' →
  ¬ p `prefix_of` q → ¬ q `prefix_of` p →
  fs_lookup t' q = fs_lookup t q.
Proof.
  revert t t' q. induction p as [|n p IH]; intros t t' q; simpl.
  - intros _ Hp. destruct Hp. apply prefix_nil.
  - destruct t as [c|ch]; [done|].
    destruct (fs_install _ p new) as [c'|] eqn:E; [|done].
    intros [= <-] Hp Hq. destruct q as [|m q]; [destruct Hq; apply prefix_nil|].
    simpl. destruct (decide (n = m)) as [->|Hne].
    + rewrite lookup_insert_eq.
      rewrite (IH _ _ q E).
      * destruct (ch !! m); simpl; [done|]. destruct q; [|done].
        destruct Hq. apply prefix_cons, prefix_nil.
      * intros Hpq. apply Hp. by apply prefix_cons.
      * intros Hpq. apply Hq. by apply prefix_cons.
    + by rewrite lookup_insert_ne.
Qed.

Lemma fs_remove_lookup t p : p ≠ [] → fs_lookup (fs_remove t p) p = None.
Proof.
  revert t. induction p as [|n p IH]; intros t Hp; [done|].
  destruct t as [c|ch]; [done|]. destruct p as [|m p].
  - simpl. by rewrite lookup_delete_eq.
  - cbn [fs_remove]. destruct (ch !! n) as [c|] eqn:Hc.
    + cbn [fs_lookup]. rewrite lookup_insert_eq. by apply IH.
    + cbn [fs_lookup]. by rewrite Hc.
Qed.

(** ** The backup *)

Ltac unfold_M :=
  unfold mbind, M_bind, mret, M_ret, raise, raise_from, get, put, gets,
    modify, try_except, in_world, forget in *.

Section Props.
Context {E : Env}.

Lemma spawn_primary_build_node name destroy use_logging st :
  spawn_primary name destroy use_logging st =
  match _prepare_dir (default true destroy) st with
  | (Returned dir, st1) =>
      in_world (build_node name dir (default false use_logging)) st1
  | (Raised e, st1) => (Raised e, st1)
  end.
Proof.
  unfold spawn_primary, build_node. unfold_M.
  destruct (_prepare_dir _ st) as [[e|dir] st1]; [done|].
  destruct (PostgresNode_new _ _ _ _) as [[e|n] w1]; [done|].
  destruct (update_node _ _ _) as [[e|[]] w2]; [done|]. simpl.
  destruct (append_conf _ _ _ _) as [[e|[]] w3]; [done|]. simpl.
  destruct (get_node _ _) as [[e|N] w4]; [done|]. simpl.
  by destruct (append_conf _ _ _ _) as [[e|[]] w5].
Qed.

Lemma prepare_dir_exhausted destroy st :
  NodeBackup._available (self st) = false →
  _prepare_dir destroy st = (Raised exhausted, st).
Proof. intros Hx. unfold _prepare_dir. unfold_M. by rewrite Hx. Qed.

Lemma spawn_primary_exhausted name destroy use_logging st :
  NodeBackup._available (self st) = false →
  spawn_primary name destroy use_logging st = (Raised exhausted, st).
Proof.
  intros Hx. by rewrite spawn_primary_build_node, prepare_dir_exhausted.
Qed.

Lemma spawn_replica_exhausted name destroy use_logging st :
  NodeBackup._available (self st) = false →
  spawn_replica name destroy use_logging st = (Raised exhausted, st).
Proof.
  intros Hx. unfold spawn_replica.
  unfold mbind, M_bind. by rewrite spawn_primary_exhausted.
Qed.

Lemma cleanup_exhausted st :
  NodeBackup._available (self st) = false → cleanup st = (Returned tt, st).
Proof. intros Hx. unfold cleanup. unfold_M. by rewrite Hx. Qed.

Lemma run_call_exhausted c st :
  NodeBackup._available (self st) = false → (run_call c st).2 = st.
Proof.
  intros Hx. destruct c; unfold run_call, forget, __exit__.
  - by rewrite spawn_primary_exhausted.
  - by rewrite spawn_replica_exhausted.
  - by rewrite cleanup_exhausted.
  - by rewrite cleanup_exhausted.
Qed.

Lemma run_calls_exhausted cs st :
  NodeBackup._available (self st) = false → run_calls cs st = st.
Proof.
  intros Hx. unfold run_calls. induction cs as [|c cs IH]; [done|].
  simpl. by rewrite run_call_exhausted.
Qed.

(** C1: on a backup whose availability flag is cleared, [spawn_primary]
    and [spawn_replica] raise [BackupException('Backup is exhausted')]
    and leave the backup and the world (file system, ports, node
    objects) exactly as they were: no instance, no directory.  This
    holds for every later call, since the calls made in between change
    nothing either. *)
Theorem exhausted_backup_refuses_spawn name destroy use_logging cs st :
  NodeBackup._available (self st) = false →
  run_calls cs st = st ∧
  spawn_primary name destroy use_logging (run_calls cs st)
    = (Raised exhausted, run_calls cs st) ∧
  spawn_replica name destroy use_logging (run_calls cs st)
    = (Raised exhausted, run_calls cs st).
Proof.
  intros Hx. rewrite (run_calls_exhausted _ _ Hx). split_and!;
    [done | by apply spawn_primary_exhausted | by apply spawn_replica_exhausted].
Qed.

Lemma prepare_dir_destroy st :
  NodeBackup._available (self st) = true →
  _prepare_dir true st =
    (Returned (NodeBackup.base_dir (self st)), set_self_available false st).
Proof. intros Ha. unfold _prepare_dir. unfold_M. by rewrite Ha. Qed.

Lemma fresh_node_None (ns : gmap nat PostgresNode.t) : ns !! fresh (dom ns) = None.
Proof. apply not_elem_of_dom, is_fresh. Qed.

Lemma open_append_inv f text w r w' :
  open_append f text w = (r, w') →
  bound_ports w' = bound_ports w ∧ nodes w' = nodes w ∧
  utility_calls w' = utility_calls w ∧
  (∀ q, fs_exists (fs w) q → fs_exists (fs w') q) ∧
  match r with
  | Raised e => w' = w ∧ ∃ msg, e = OSError msg
  | Returned _ => ∃ old, fs_lookup (fs w') f = Some (File (old +:+ text))
  end.
Proof.
  unfold open_append. destruct f as [|n f]; [intros [= <- <-]; naive_solver|].
  destruct (os_path_isdir _ _); [|intros [= <- <-]; naive_solver].
  destruct (fs_lookup (fs w) (n :: f)) as [[c|ch]|] eqn:Hl;
    [| intros [= <- <-]; naive_solver |].
  all: destruct (fs_install _ _ _) as [f'|] eqn:Hi;
    [|intros [= <- <-]; naive_solver].
  all: intros [= <- <-]; unfold set_fs; cbn [fs bound_ports nodes utility_calls];
    repeat split; try done.
  all: try (intros q; eapply fs_install_exists; [exact Hi|]; intros ch';
            rewrite Hl; congruence).
  all: eexists; by eapply fs_install_lookup.
Qed.

Lemma append_conf_inv n filename text w r w' :
  append_conf n filename text w = (r, w') →
  bound_ports w' = bound_ports w ∧ nodes w' = nodes w ∧
  utility_calls w' = utility_calls w ∧
  (∀ q, fs_exists (fs w) q → fs_exists (fs w') q) ∧
  match r with
  | Raised e => w' = w ∧ ((∃ msg, e = OSError msg) ∨ nodes w !! n = None)
  | Returned _ =>
      ∃ N old, nodes w !! n = Some N ∧
        fs_lookup (fs w')
          (os_path_join (os_path_join (PostgresNode.base_dir N) DATA_DIR) filename)
        = Some (File (old +:+ text))
  end.
Proof.
  unfold append_conf, get_node. unfold_M.
  destruct (nodes w !! n) as [N|] eqn:HN; [|intros [= <- <-]; eauto 10].
  intros Ha. apply open_append_inv in Ha as (?&?&?&?&Hr).
  repeat split; try done. destruct r as [e|[]].
  - destruct Hr as [-> [msg ->]]. eauto.
  - destruct Hr as [old Ho]. eauto.
Qed.

Lemma PostgresNode_new_inv name dir use_logging w r w' :
  PostgresNode_new name dir use_logging w = (r, w') →
  match r with
  | Raised e => e = PortAllocationError ∧ w' = w
  | Returned n =>
      n = fresh (dom (nodes w)) ∧
      ∃ p s, select_port (bound_ports w) = Some p ∧
        w' = mkWorld (fs w) ({[p]} ∪ bound_ports w)
               (<[n := set_should_rm_dirs false
                         (built_node name dir use_logging n p s)]> (nodes w))
               (utility_calls w)
  end.
Proof.
  unfold PostgresNode_new, reserve_port. unfold_M.
  destruct (select_port _) as [p|]; intros [= <- <-]; eauto.
Qed.

Lemma update_node_inv n f w r w' :
  update_node n f w = (r, w') →
  match nodes w !! n with
  | Some N => r = Returned tt ∧ w' = set_nodes (<[n := f N]> (nodes w)) w
  | None => w' = w ∧ ∃ msg, r = Raised (AttributeError msg)
  end.
Proof.
  unfold update_node, get_node. unfold_M.
  destruct (nodes w !! n); intros [= <- <-]; eauto.
Qed.

Lemma build_node_inv name dir use_logging w r w' :
  build_node name dir use_logging w = (r, w') →
  (∀ q, fs_exists (fs w) q → fs_exists (fs w') q) ∧
  (∀ m Nm, nodes w !! m = Some Nm → nodes w' !! m = Some Nm) ∧
  utility_calls w' = utility_calls w ∧
  match r with
  | Raised e => e = PortAllocationError ∨ ∃ msg, e = OSError msg
  | Returned n =>
      nodes w !! n = None ∧
      ∃ p s, select_port (bound_ports w) = Some p ∧
        nodes w' = <[n := built_node name dir use_logging n p s]> (nodes w)
  end.
Proof.
  unfold build_node. unfold mbind, M_bind, mret, M_ret.
  destruct (PostgresNode_new _ _ _ w) as [[e|n] w1] eqn:Hnew;
    apply PostgresNode_new_inv in Hnew.
  { destruct Hnew as [-> ->]. intros [= <- <-]. eauto. }
  destruct Hnew as (Hn & p & s & Hp & ->).
  assert (Hfresh : nodes w !! n = None) by (subst n; apply fresh_node_None).
  destruct (update_node _ _ _) as [[e|[]] w2] eqn:Hup;
    apply update_node_inv in Hup; cbn [nodes] in Hup;
    rewrite lookup_insert_eq in Hup; destruct Hup as [Hr ->]; [done|].
  unfold set_nodes. cbn [nodes fs bound_ports utility_calls].
  rewrite insert_insert_eq.
  change (set_should_rm_dirs true (set_should_rm_dirs false ?N))
    with (set_should_rm_dirs true N).
  change (set_should_rm_dirs true (built_node name dir use_logging n p s))
    with (built_node name dir use_logging n p s).
  set (N := built_node name dir use_logging n p s).
  assert (Hold : ∀ m Nm, nodes w !! m = Some Nm → <[n:=N]> (nodes w) !! m = Some Nm).
  { intros m Nm Hm. rewrite lookup_insert_ne; [done|]. congruence. }
  destruct (append_conf n _ _ _) as [[e|[]] w2] eqn:Ha1;
    apply append_conf_inv in Ha1 as (_ & Hn1 & Hu1 & Hf1 & Hr1);
    cbn [nodes fs bound_ports utility_calls] in *.
  { destruct Hr1 as [-> [[msg ->]|Hno]].
    - intros [= <- <-]. cbn. eauto 10.
    - by rewrite lookup_insert_eq in Hno. }
  unfold get_node at 1. rewrite Hn1, lookup_insert_eq.
  destruct (append_conf n _ _ _) as [[e|[]] w3] eqn:Ha2;
    apply append_conf_inv in Ha2 as (_ & Hn2 & Hu2 & Hf2 & Hr2);
    rewrite Hn1 in *.
  { destruct Hr2 as [-> [[msg ->]|Hno]].
    - intros [= <- <-]. rewrite Hn1. eauto 10.
    - by rewrite lookup_insert_eq in Hno. }
  intros [= <- <-]. rewrite Hn2. repeat split; eauto. congruence.
Qed.

Lemma mkdtemp_inv w r w' :
  tempfile_mkdtemp w = (r, w') →
  bound_ports w' = bound_ports w ∧ nodes w' = nodes w ∧
  utility_calls w' = utility_calls w ∧
  (∀ q, fs_exists (fs w) q → fs_exists (fs w') q) ∧
  match r with
  | Raised e => w' = w ∧ ∃ msg, e = OSError msg
  | Returned d =>
      fs_lookup (fs w) d = None ∧ fs_lookup (fs w') d = Some (Dir ∅) ∧
      ∃ name, d = os_path_join gettempdir name ∧
        fs_install (fs w) d (Dir ∅) = Some (fs w')
  end.
Proof.
  unfold tempfile_mkdtemp.
  destruct (fs_lookup (fs w) gettempdir) as [[c|ch]|] eqn:Ht;
    try (intros [= <- <-]; eauto 10).
  set (d := os_path_join gettempdir (mkdtemp_name (dom ch))).
  assert (Hd : fs_lookup (fs w) d = None).
  { unfold d, os_path_join. rewrite fs_lookup_app, Ht. simpl.
    pose proof (mkdtemp_name_fresh (dom ch)) as Hf.
    apply not_elem_of_dom in Hf. by rewrite Hf. }
  destruct (fs_install _ _ _) as [f'|] eqn:Hi; intros [= <- <-]; [|eauto 10].
  unfold set_fs. cbn [fs bound_ports nodes utility_calls]. repeat split; try done.
  - intros q. eapply fs_install_exists; [exact Hi|]. intros ch'. by rewrite Hd.
  - by eapply fs_install_lookup.
  - eauto.
Qed.

Lemma copytree_inv src dst w r w' :
  shutil_copytree src dst w = (r, w') →
  bound_ports w' = bound_ports w ∧ nodes w' = nodes w ∧
  utility_calls w' = utility_calls w ∧
  (∀ q, fs_exists (fs w) q → fs_exists (fs w') q) ∧
  match r with
  | Raised e => True
  | Returned _ =>
      ∃ ch, fs_lookup (fs w) src = Some (Dir ch) ∧ fs_lookup (fs w) dst = None ∧
        fs_install (fs w) dst (Dir ch) = Some (fs w')
  end.
Proof.
  unfold shutil_copytree, os_path_exists.
  destruct (fs_lookup (fs w) src) as [[c|ch]|] eqn:Hs;
    try (intros [= <- <-]; eauto 10).
  destruct (fs_lookup (fs w) dst) as [x|] eqn:Hd; [intros [= <- <-]; eauto 10|].
  destruct (copytree_fault _ _ _) as [[e part]|].
  - intros [= <- <-]. unfold set_fs. cbn [fs bound_ports nodes utility_calls].
    repeat split; try done. intros q Hq.
    destruct part as [t|]; simpl; [|done].
    destruct (fs_install (fs w) dst t) as [f'|] eqn:Hi; simpl; [|done].
    eapply fs_install_exists; [exact Hi| |done]. intros ch'. by rewrite Hd.
  - destruct (fs_install _ _ _) as [f'|] eqn:Hi; intros [= <- <-]; [|eauto 10].
    unfold set_fs. cbn [fs bound_ports nodes utility_calls].
    repeat split; try done; [|eauto].
    intros q. eapply fs_install_exists; [exact Hi|]. intros ch'. by rewrite Hd.
Qed.

Lemma set_available_id bk :
  set_available (NodeBackup._available bk) bk = bk.
Proof. by destruct bk. Qed.

(** [_prepare_dir(destroy=False)] on an available backup, step by step. *)
Lemma prepare_dir_keep st :
  NodeBackup._available (self st) = true →
  _prepare_dir false st =
  match tempfile_mkdtemp (world st) with
  | (Raised e, w1) => (Raised e, mkSt (self st) w1)
  | (Returned d, w1) =>
      match shutil_copytree (os_path_join (NodeBackup.base_dir (self st)) DATA_DIR)
              (os_path_join d DATA_DIR) w1 with
      | (Raised e, w2) =>
          (Raised (BackupException "Failed to copy files" (Some e)),
           mkSt (self st) w2)
      | (Returned _, w2) => (Returned d, mkSt (self st) w2)
      end
  end.
Proof.
  intros Ha. unfold _prepare_dir. unfold_M. rewrite Ha. simpl.
  destruct (tempfile_mkdtemp _) as [[e|d] w1]; [done|]. simpl.
  destruct (shutil_copytree _ _ _) as [[e|[]] w2]; [done|]. simpl.
  unfold set_self_available. simpl. by rewrite <- Ha, set_available_id.
Qed.

Lemma prepare_dir_keep_inv st r st' :
  NodeBackup._available (self st) = true →
  _prepare_dir false st = (r, st') →
  self st' = self st ∧
  nodes (world st') = nodes (world st) ∧
  (∀ q, fs_exists (fs (world st)) q → fs_exists (fs (world st')) q) ∧
  ∀ d, r = Returned d →
    let src := os_path_join (NodeBackup.base_dir (self st)) DATA_DIR in
    let dst := os_path_join d DATA_DIR in
    fs_lookup (fs (world st)) d = None ∧
    fs_exists (fs (world st')) d ∧
    d ≠ NodeBackup.base_dir (self st) ∧
    ∃ w1 ch,
      tempfile_mkdtemp (world st) = (Returned d, w1) ∧
      fs_lookup (fs w1) src = Some (Dir ch) ∧
      fs_lookup (fs (world st')) dst = Some (Dir ch) ∧
      (¬ src `prefix_of` dst →
       fs_lookup (fs (world st)) src = Some (Dir ch) ∧
       fs_lookup (fs (world st')) src = Some (Dir ch)).
Proof.
  intros Ha. rewrite (prepare_dir_keep st Ha).
  destruct (tempfile_mkdtemp _) as [[e|d] w1] eqn:Hmk;
    apply mkdtemp_inv in Hmk as (_ & Hn1 & _ & Hf1 & Hr1).
  { intros [= <- <-]. simpl. by destruct Hr1 as [-> _]. }
  destruct Hr1 as (Hd0 & Hd1 & name & Hname & Hi1).
  destruct (shutil_copytree _ _ _) as [[e|[]] w2] eqn:Hcp;
    apply copytree_inv in Hcp as (_ & Hn2 & _ & Hf2 & Hr2);
    intros [= <- <-]; cbn [self world].
  { split_and!; [done|congruence|eauto|done]. }
  split_and!; [done|congruence|eauto|]. intros ? [= <-].
  destruct Hr2 as (ch & Hsrc & Hdst & Hi2). cbn zeta.
  split; [done|]. split; [apply Hf2; by eexists|]. split.
  { intros ->. congruence. }
  exists w1, ch. split; [done|]. split; [done|].
  split; [by eapply fs_install_lookup|]. intros Hpre.
  set (src := os_path_join (NodeBackup.base_dir (self st)) DATA_DIR) in *.
  set (dst := os_path_join d DATA_DIR) in *.
  assert (H1 : fs_lookup (fs w2) src = fs_lookup (fs w1) src).
  { eapply fs_install_lookup_ne; [exact Hi2| |done].
    intros [k Hk]. assert (fs_exists (fs w1) dst) as [x Hx]; [|congruence].
    apply (fs_exists_app_l _ _ k). rewrite <- Hk. by eexists. }
  assert (H0 : fs_lookup (fs w1) src = fs_lookup (fs (world st)) src).
  { eapply fs_install_lookup_ne; [exact Hi1| |].
    - intros [k Hk]. rewrite Hk, fs_lookup_app, Hd1 in Hsrc. simpl in Hsrc.
      destruct k; [|done]. apply Hpre. rewrite Hk, app_nil_r.
      by apply prefix_app_r.
    - intros Hp. apply Hpre. by apply prefix_app_r. }
  split; congruence.
Qed.

(** One call of [spawn_primary(destroy=False)] on an available backup. *)
Lemma spawn_primary_keep_step name use_logging st r st' :
  NodeBackup._available (self st) = true →
  spawn_primary name (Some false) use_logging st = (r, st') →
  self st' = self st ∧
  (∀ q, fs_exists (fs (world st)) q → fs_exists (fs (world st')) q) ∧
  (∀ m Nm, nodes (world st) !! m = Some Nm → nodes (world st') !! m = Some Nm) ∧
  ∀ n, r = Returned n →
    ∃ N, nodes (world st') !! n = Some N ∧
      fs_lookup (fs (world st)) (PostgresNode.base_dir N) = None ∧
      fs_exists (fs (world st')) (PostgresNode.base_dir N) ∧
      PostgresNode.base_dir N ≠ NodeBackup.base_dir (self st).
Proof.
  intros Ha. rewrite spawn_primary_build_node.
  change (default true (Some false)) with false.
  destruct (_prepare_dir false st) as [[e|d] st1] eqn:Hp;
    apply (prepare_dir_keep_inv _ _ _ Ha) in Hp as (Hs & Hn & Hf & Hr).
  { intros [= <- <-]. split_and!; [done|done|intros; congruence|done]. }
  destruct (Hr d eq_refl) as (Hd0 & Hd1 & Hne & _).
  unfold in_world.
  destruct (build_node _ _ _ _) as [r' w2] eqn:Hb. intros [= <- <-].
  apply build_node_inv in Hb as (Hf2 & Hn2 & _ & Hr2). cbn [self world].
  split_and!; [done|eauto| |].
  { intros m Nm Hm. apply Hn2. congruence. }
  intros n ->. cbn beta iota in Hr2. destruct Hr2 as (_ & p & s & _ & Hnodes).
  eexists. rewrite Hnodes, lookup_insert_eq. split; [done|].
  cbn. eauto.
Qed.

Lemma spawn_many_inv args : ∀ st rs st',
  NodeBackup._available (self st) = true →
  spawn_many args st = (rs, st') →
  self st' = self st ∧
  (∀ q, fs_exists (fs (world st)) q → fs_exists (fs (world st')) q) ∧
  (∀ m Nm, nodes (world st) !! m = Some Nm → nodes (world st') !! m = Some Nm) ∧
  (∀ i n, rs !! i = Some (Returned n) →
     ∃ N, nodes (world st') !! n = Some N ∧
       fs_lookup (fs (world st)) (PostgresNode.base_dir N) = None ∧
       fs_exists (fs (world st')) (PostgresNode.base_dir N) ∧
       PostgresNode.base_dir N ≠ NodeBackup.base_dir (self st)) ∧
  (∀ i j ni nj Ni Nj, i < j →
     rs !! i = Some (Returned ni) → rs !! j = Some (Returned nj) →
     nodes (world st') !! ni = Some Ni → nodes (world st') !! nj = Some Nj →
     PostgresNode.base_dir Ni ≠ PostgresNode.base_dir Nj).
Proof.
  induction args as [|[name use_logging] args IH]; intros st rs st' Ha;
    cbn [spawn_many].
  { intros [= <- <-]. split_and!; try done; intros; simplify_list_eq. }
  destruct (spawn_primary _ _ _ st) as [r st1] eqn:Hstep.
  apply (spawn_primary_keep_step _ _ _ _ _ Ha) in Hstep as (Hs1 & Hf1 & Hn1 & Hr1).
  destruct (spawn_many args st1) as [rs' st2] eqn:Hrest.
  assert (Ha1 : NodeBackup._available (self st1) = true) by congruence.
  apply (IH _ _ _ Ha1) in Hrest as (Hs2 & Hf2 & Hn2 & Hr2 & Hd2).
  intros [= <- <-]. split_and!; [congruence|eauto|eauto| |].
  - intros [|i] n Hi; simpl in Hi.
    + injection Hi as ->. destruct (Hr1 n eq_refl) as (N & HN & Hfresh & Hex & Hne).
      exists N. split_and!; [by apply Hn2|done|by apply Hf2|done].
    + destruct (Hr2 i n Hi) as (N & HN & Hfresh & Hex & Hne).
      exists N. split_and!; [done| |done|congruence].
      destruct (fs_lookup (fs (world st)) (PostgresNode.base_dir N)) eqn:Hl; [|done].
      destruct (Hf1 (PostgresNode.base_dir N)) as [x Hx]; [by eexists|congruence].
  - intros [|i] [|j] ni nj Ni Nj Hlt Hi Hj HNi HNj; simpl in Hi, Hj; try lia.
    + injection Hi as ->. destruct (Hr1 ni eq_refl) as (N & HN & _ & [x Hx] & _).
      apply Hn2 in HN. assert (N = Ni) as -> by congruence.
      destruct (Hr2 j nj Hj) as (N' & HN' & Hfresh & _).
      assert (N' = Nj) as -> by congruence. congruence.
    + eapply (Hd2 i j); eauto with lia.
Qed.

(** [spawn_primary(destroy=True)] on an available backup: the state of
    the backup afterwards, whatever the outcome. *)
Lemma spawn_primary_destroy_inv name use_logging st r st' :
  NodeBackup._available (self st) = true →
  spawn_primary name (Some true) use_logging st = (r, st') →
  self st' = set_available false (self st) ∧
  build_node name (NodeBackup.base_dir (self st)) (default false use_logging)
    (world st) = (r, world st').
Proof.
  intros Ha. rewrite spawn_primary_build_node.
  change (default true (Some true)) with true.
  rewrite (prepare_dir_destroy _ Ha). unfold in_world.
  cbn [world self set_self_available].
  destruct (build_node _ _ _ _) as [r' w2]. by intros [= <- <-].
Qed.

(** C3: [spawn_primary(destroy=True)] on an available backup copies
    nothing: the directory it prepares is the base directory of the
    backup and the world is untouched by the preparation; the instance
    it returns has that base directory; the availability flag is
    cleared, and stays cleared whatever is called on the backup
    afterwards. *)
Theorem spawn_primary_destroy_hands_over name use_logging st :
  NodeBackup._available (self st) = true →
  _prepare_dir true st =
    (Returned (NodeBackup.base_dir (self st)), set_self_available false st) ∧
  ∀ r st', spawn_primary name (Some true) use_logging st = (r, st') →
    NodeBackup._available (self st') = false ∧
    (∀ cs, NodeBackup._available (self (run_calls cs st')) = false) ∧
    ∀ n, r = Returned n →
      ∃ N, nodes (world st') !! n = Some N ∧
        PostgresNode.base_dir N = NodeBackup.base_dir (self st) ∧
        PostgresNode._should_rm_dirs N = true.
Proof.
  intros Ha. split; [by apply prepare_dir_destroy|]. intros r st' Hsp.
  apply (spawn_primary_destroy_inv _ _ _ _ _ Ha) in Hsp as [Hs Hb].
  assert (Hx : NodeBackup._available (self st') = false) by by rewrite Hs.
  split_and!; [done| |].
  - intros cs. by rewrite run_calls_exhausted.
  - intros n ->. apply build_node_inv in Hb as (_ & _ & _ & _ & p & s & _ & Hnodes).
    eexists. rewrite Hnodes, lookup_insert_eq. done.
Qed.

(** C10: once [spawn_primary(destroy=True)] (explicitly, or by default)
    has been called on an available backup, [cleanup] and [__exit__]
    change nothing, neither in the backup nor in the world, and so
    does every later sequence of calls on the backup: the directory
    handed over is not deleted by the backup. *)
Theorem cleanup_after_destroy_is_noop name destroy use_logging st :
  NodeBackup._available (self st) = true →
  default true destroy = true →
  ∀ r st', spawn_primary name destroy use_logging st = (r, st') →
    cleanup st' = (Returned tt, st') ∧
    __exit__ st' = (Returned tt, st') ∧
    ∀ cs, run_calls cs st' = st' ∧ fs (world (run_calls cs st')) = fs (world st').
Proof.
  intros Ha Hd r st' Hsp.
  assert (Hx : NodeBackup._available (self st') = false).
  { rewrite spawn_primary_build_node, Hd, (prepare_dir_destroy _ Ha) in Hsp.
    unfold in_world in Hsp. cbn [world self set_self_available] in Hsp.
    destruct (build_node _ _ _ _) as [r' w2]. by injection Hsp as <- <-. }
  split_and!.
  - by apply cleanup_exhausted.
  - by apply cleanup_exhausted.
  - intros cs. by rewrite run_calls_exhausted.
Qed.

Lemma os_path_isdir_remove t p :
  p ≠ [] → os_path_isdir (fs_remove t p) p = false.
Proof. intros Hp. unfold os_path_isdir. by rewrite fs_remove_lookup. Qed.

(** C7: [cleanup] never raises.  On an available backup it removes the
    base directory when there is one (and does nothing to the file
    system when there is none), and clears the flag; on an exhausted
    backup it changes nothing.  So after one [cleanup] every later
    [cleanup] or [__exit__] leaves backup and world as they are. *)
Theorem cleanup_idempotent st :
  ∃ st1, cleanup st = (Returned tt, st1) ∧
    NodeBackup._available (self st1) = false ∧
    (NodeBackup._available (self st) = true →
     world st1 =
       (if os_path_isdir (fs (world st)) (NodeBackup.base_dir (self st))
        then set_fs (fs_remove (fs (world st)) (NodeBackup.base_dir (self st)))
               (world st)
        else world st) ∧
     (NodeBackup.base_dir (self st) ≠ [] →
      os_path_isdir (fs (world st1)) (NodeBackup.base_dir (self st)) = false)) ∧
    (NodeBackup._available (self st) = false → st1 = st) ∧
    cleanup st1 = (Returned tt, st1) ∧
    __exit__ st1 = (Returned tt, st1) ∧
    ∀ k, Nat.iter k (λ s, (cleanup s).2) st1 = st1.
Proof.
  assert (Hiter : ∀ s, NodeBackup._available (self s) = false →
            ∀ k, Nat.iter k (λ s, (cleanup s).2) s = s).
  { intros s Hs k. induction k as [|k IH]; [done|].
    simpl. by rewrite IH, cleanup_exhausted. }
  destruct (NodeBackup._available (self st)) eqn:Ha.
  - unfold cleanup at 1. unfold_M. rewrite Ha. unfold shutil_rmtree.
    destruct (os_path_isdir _ _) eqn:Hdir; cbn [world self set_self_available];
      eexists; (split; [reflexivity|]); cbn [world self set_self_available].
    all: split_and!;
      [done | intros _; split; [done|] | done | by apply cleanup_exhausted
      | by apply cleanup_exhausted | by apply Hiter].
    + apply os_path_isdir_remove.
    + done.
  - exists st. rewrite cleanup_exhausted by done.
    split_and!; try done; try (by apply cleanup_exhausted). by apply Hiter.
Qed.

Lemma spawn_primary_defaults name destroy use_logging :
  spawn_primary name (Some (default true destroy)) (Some (default false use_logging))
  = spawn_primary name destroy use_logging.
Proof. by destruct destroy, use_logging. Qed.

Lemma prepare_dir_self destroy st r st1 :
  _prepare_dir destroy st = (r, st1) → ∃ b, self st1 = set_available b (self st).
Proof.
  destruct (NodeBackup._available (self st)) eqn:Ha.
  - destruct destroy.
    + rewrite (prepare_dir_destroy _ Ha). intros [= <- <-]. by exists false.
    + intros Hp. apply (prepare_dir_keep_inv _ _ _ Ha) in Hp as (-> & _).
      exists true. by rewrite <- Ha, set_available_id.
  - rewrite (prepare_dir_exhausted _ _ Ha). intros [= <- <-].
    exists false. by rewrite <- Ha, set_available_id.
Qed.

Lemma spawn_primary_inv name destroy use_logging st r st1 :
  spawn_primary name destroy use_logging st = (r, st1) →
  (∃ b, self st1 = set_available b (self st)) ∧
  ∀ n, r = Returned n →
    ∃ dir p s, nodes (world st1) !! n =
      Some (built_node name dir (default false use_logging) n p s).
Proof.
  rewrite spawn_primary_build_node.
  destruct (_prepare_dir _ st) as [[e|dir] st2] eqn:Hp;
    apply prepare_dir_self in Hp as [b Hb].
  { intros [= <- <-]. split; [by exists b|done]. }
  unfold in_world. destruct (build_node _ _ _ _) as [r' w2] eqn:Hbn.
  intros [= <- <-]. split; [by exists b|]. intros n ->.
  apply build_node_inv in Hbn as (_ & _ & _ & _ & p & s & _ & Hnodes).
  exists dir, p, s. cbn [world]. by rewrite Hnodes, lookup_insert_eq.
Qed.

Lemma spawn_replica_unfold name destroy use_logging st :
  spawn_replica name destroy use_logging st =
    match spawn_primary name destroy use_logging st with
    | (Raised e, st1) => (Raised e, st1)
    | (Returned n, st1) =>
        match wire_replica n (self st1) (world st1) with
        | (Raised e, w2) => (Raised e, mkSt (self st1) w2)
        | (Returned _, w2) => (Returned n, mkSt (self st1) w2)
        end
    end.
Proof.
  unfold spawn_replica, wire_replica. rewrite spawn_primary_defaults. unfold_M.
  destruct (spawn_primary _ _ _ st) as [[e|n] st1]; [done|]. cbn [self world].
  destruct (_assign_master _ _ _) as [[e|[]] w2]; [done|]. cbn [self world].
  by destruct (_create_recovery_conf _ _ _) as [[e|[]] w3].
Qed.

(** C8: [spawn_replica] is [spawn_primary] with the same arguments, then
    [_assign_master] with the original node of the backup and
    [_create_recovery_conf] with the user name of the backup, and it
    returns the instance of [spawn_primary].  When it returns, that
    instance has the original node as its master and its recovery file
    ends with the line naming the port and host of the original node and
    the user name the backup was created with. *)
Theorem spawn_replica_is_spawn_primary_then_wire name destroy use_logging st :
  spawn_replica name destroy use_logging st =
    match spawn_primary name destroy use_logging st with
    | (Raised e, st1) => (Raised e, st1)
    | (Returned n, st1) =>
        match wire_replica n (self st1) (world st1) with
        | (Raised e, w2) => (Raised e, mkSt (self st1) w2)
        | (Returned _, w2) => (Returned n, mkSt (self st1) w2)
        end
    end ∧
  ∀ n st', spawn_replica name destroy use_logging st = (Returned n, st') →
    ∃ st1 N Mn old,
      spawn_primary name destroy use_logging st = (Returned n, st1) ∧
      self st' = self st1 ∧
      NodeBackup.original_node (self st') = NodeBackup.original_node (self st) ∧
      NodeBackup.username (self st') = NodeBackup.username (self st) ∧
      nodes (world st') !! n = Some N ∧
      PostgresNode.master N = Some (NodeBackup.original_node (self st)) ∧
      nodes (world st') !! NodeBackup.original_node (self st) = Some Mn ∧
      fs_lookup (fs (world st'))
        (os_path_join (os_path_join (PostgresNode.base_dir N) DATA_DIR)
           RECOVERY_CONF_FILE)
      = Some (File (old +:+ recovery_conf_line (PostgresNode.name N)
                              (PostgresNode.port Mn) (PostgresNode.host Mn)
                              (NodeBackup.username (self st)))).
Proof.
  split; [apply spawn_replica_unfold|]. intros n st'. rewrite spawn_replica_unfold.
  destruct (spawn_primary _ _ _ st) as [[e|n1] st1] eqn:Hsp; [done|].
  apply spawn_primary_inv in Hsp as ([b Hb] & Hr).
  destruct (Hr n1 eq_refl) as (dir & p & s & HN1). clear Hr.
  unfold wire_replica, _assign_master. unfold mbind, M_bind.
  destruct (update_node _ _ _) as [r2 w2] eqn:Hup.
  apply update_node_inv in Hup. rewrite HN1 in Hup. destruct Hup as [-> ->].
  unfold _create_recovery_conf, get_node. unfold mbind, M_bind.
  unfold set_nodes at 1 2. cbn [nodes]. rewrite lookup_insert_eq.
  cbn [PostgresNode.master set_master].
  destruct (_ !! NodeBackup.original_node (self st1)) as [Mn|] eqn:HM; [|done].
  destruct (append_conf _ _ _ _) as [[e|[]] w3] eqn:Hac; [done|].
  intros [= <- <-].
  apply append_conf_inv in Hac as (_ & Hn3 & _ & _ & N & old & HN & Hfile).
  unfold set_nodes in HN, Hn3. cbn [nodes] in HN, Hn3.
  rewrite lookup_insert_eq in HN. injection HN as <-.
  assert (Ho : NodeBackup.original_node (self st1) = NodeBackup.original_node (self st))
    by by rewrite Hb.
  assert (Hu : NodeBackup.username (self st1) = NodeBackup.username (self st))
    by by rewrite Hb.
  exists st1, (set_master (Some (NodeBackup.original_node (self st1)))
                 (built_node name dir (default false use_logging) n1 p s)), Mn, old.
  cbn [self world]. rewrite Hn3, lookup_insert_eq, <- Ho, <- Hu.
  split_and!; done.
Qed.

Lemma prepare_dir_available_error destroy st e st1 :
  NodeBackup._available (self st) = true →
  _prepare_dir destroy st = (Raised e, st1) → e ≠ exhausted.
Proof.
  intros Ha. destruct destroy.
  - by rewrite (prepare_dir_destroy _ Ha).
  - rewrite (prepare_dir_keep _ Ha).
    destruct (tempfile_mkdtemp _) as [[e'|d] w1] eqn:Hmk.
    + apply mkdtemp_inv in Hmk as (_ & _ & _ & _ & _ & msg & ->).
      by intros [= <- <-].
    + destruct (shutil_copytree _ _ _) as [[e'|[]] w2]; [|done].
      by intros [= <- <-].
Qed.

Lemma spawn_primary_available_error name destroy use_logging st e st1 :
  NodeBackup._available (self st) = true →
  spawn_primary name destroy use_logging st = (Raised e, st1) → e ≠ exhausted.
Proof.
  intros Ha. rewrite spawn_primary_build_node.
  destruct (_prepare_dir _ st) as [[e'|dir] st2] eqn:Hp.
  - intros [= <- <-]. by eapply prepare_dir_available_error.
  - unfold in_world. destruct (build_node _ _ _ _) as [r' w2] eqn:Hb.
    intros [= -> <-]. by apply build_node_inv in Hb as (_ & _ & _ & [->|[msg ->]]).
Qed.

Lemma wire_replica_error n bk w e w' :
  wire_replica n bk w = (Raised e, w') →
  ∃ msg, e = OSError msg ∨ e = AttributeError msg.
Proof.
  unfold wire_replica, _assign_master. unfold mbind, M_bind.
  destruct (update_node _ _ _) as [r1 w1] eqn:Hup. apply update_node_inv in Hup.
  destruct (nodes w !! n) as [N|]; [destruct Hup as [-> ->]|];
    [|destruct Hup as (_ & msg & ->); intros [= <- <-]; eauto].
  unfold _create_recovery_conf, get_node. unfold mbind, M_bind, raise.
  destruct (_ !! n) as [N'|]; [|intros [= <- <-]; eauto].
  destruct (PostgresNode.master N') as [m|]; [|intros [= <- <-]; eauto].
  destruct (_ !! m) as [Mn|]; [|intros [= <- <-]; eauto].
  intros Hac. apply append_conf_inv in Hac as (_ & _ & _ & _ & _ & [[msg ->]|Hno]);
    [eauto|].
  unfold set_nodes in Hno. cbn [nodes] in Hno. by rewrite lookup_insert_eq in Hno.
Qed.

Lemma spawn_replica_available_error name destroy use_logging st e st1 :
  NodeBackup._available (self st) = true →
  spawn_replica name destroy use_logging st = (Raised e, st1) → e ≠ exhausted.
Proof.
  intros Ha.
  rewrite spawn_replica_unfold.
  destruct (spawn_primary _ _ _ st) as [[e'|n] st2] eqn:Hsp.
  - intros [= <- <-]. by eapply spawn_primary_available_error.
  - destruct (wire_replica _ _ _) as [[e'|[]] w2] eqn:Hw; [|done].
    intros [= <- <-]. by apply wire_replica_error in Hw as [msg [->| ->]].
Qed.

(** C4: when the copy made by [spawn_primary(destroy=False)] fails, with
    whatever exception, [spawn_primary] raises [BackupException] with
    that exception as its cause; the backup object is as before, still
    available, and a later [spawn_primary] or [spawn_replica] on it is
    not refused as exhausted. *)
Theorem copy_failure_keeps_backup name use_logging st d w1 e w2 :
  NodeBackup._available (self st) = true →
  tempfile_mkdtemp (world st) = (Returned d, w1) →
  shutil_copytree (os_path_join (NodeBackup.base_dir (self st)) DATA_DIR)
    (os_path_join d DATA_DIR) w1 = (Raised e, w2) →
  spawn_primary name (Some false) use_logging st =
    (Raised (BackupException "Failed to copy files" (Some e)), mkSt (self st) w2) ∧
  NodeBackup._available (self (mkSt (self st) w2)) = true ∧
  ∀ name' destroy' use_logging',
    (spawn_primary name' destroy' use_logging' (mkSt (self st) w2)).1
      ≠ Raised exhausted ∧
    (spawn_replica name' destroy' use_logging' (mkSt (self st) w2)).1
      ≠ Raised exhausted.
Proof.
  intros Ha Hmk Hcp. split_and!; [|done|].
  - rewrite spawn_primary_build_node.
    change (default true (Some false)) with false.
    by rewrite (prepare_dir_keep _ Ha), Hmk, Hcp.
  - intros name' destroy' use_logging'. split.
    + destruct (spawn_primary _ _ _ _) as [r st1] eqn:Hsp. intros Hr.
      simpl in Hr. subst r.
      by eapply spawn_primary_available_error in Hsp.
    + destruct (spawn_replica _ _ _ _) as [r st1] eqn:Hsp. intros Hr.
      simpl in Hr. subst r.
      by eapply spawn_replica_available_error in Hsp.
Qed.

(** C5 as amended: an omitted [destroy] is [destroy=True], for
    [spawn_primary] and for [spawn_replica]; so a spawn with the default
    clears the availability flag of an available backup. *)
Theorem destroy_defaults_to_true name use_logging st :
  spawn_primary name None use_logging st = spawn_primary name (Some true) use_logging st ∧
  spawn_replica name None use_logging st = spawn_replica name (Some true) use_logging st ∧
  (NodeBackup._available (self st) = true →
   NodeBackup._available (self (spawn_primary name None use_logging st).2) = false ∧
   NodeBackup._available (self (spawn_replica name None use_logging st).2) = false).
Proof.
  split_and!; [done|done|]. intros Ha.
  assert (Hp : NodeBackup._available
                 (self (spawn_primary name None use_logging st).2) = false).
  { destruct (spawn_primary _ _ _ _) as [r st1] eqn:Hsp.
    change (spawn_primary name None use_logging st)
      with (spawn_primary name (Some true) use_logging st) in Hsp.
    apply (spawn_primary_destroy_inv _ _ _ _ _ Ha) in Hsp as [Hs _].
    cbn [snd]. by rewrite Hs. }
  split; [done|]. rewrite spawn_replica_unfold.
  destruct (spawn_primary _ _ _ _) as [[e|n] st1]; [done|].
  by destruct (wire_replica _ _ _) as [[e|[]] w2].
Qed.



End Props.

(** ** The poll-until primitive *)

Lemma judge_wrong_shape expected retry_errors o :
  wrong_shape o → judge expected retry_errors o = Fatal QueryShapeError.
Proof.
  intros [->|(row & rest & -> & Hlen)]; [done|].
  simpl. destruct row as [|v [|v' row]]; simpl in *; [done|lia|done].
Qed.

Lemma after_S k d : after (S k) d = after k (mkDb (respond d) (S (executed d))).
Proof. unfold after. simpl. f_equal. lia. Qed.

Lemma poll_loop_mismatches k : ∀ n expected retry_errors d,
  (∀ i, i < k → judge expected retry_errors (respond d (executed d + i)) = Mismatch) →
  poll_loop (k + n) expected retry_errors d =
  poll_loop n expected retry_errors (after k d).
Proof.
  induction k as [|k IH]; intros n expected retry_errors d Hmis.
  - unfold after. rewrite Nat.add_0_r. by destruct d.
  - cbn [Nat.add poll_loop]. unfold mbind, M_bind, execute.
    pose proof (Hmis 0 ltac:(lia)) as H0. rewrite Nat.add_0_r in H0. rewrite H0.
    rewrite IH, <- after_S; [done|].
    intros i Hi. cbn [respond executed].
    replace (S (executed d) + i) with (executed d + S i) by lia.
    apply Hmis. lia.
Qed.

(** C9: when the answer to an attempt is an empty result set or a row
    with other than exactly one column, [pollQueryUntil] raises the
    shape error at that attempt, after exactly the executions made so
    far, however many attempts remain; and when the answers to all
    [max_attempts] attempts are mismatches (with [max_attempts = 3]:
    three), it raises the timeout after exactly [max_attempts]
    executions. *)
Theorem poll_shape_error_and_timeout expected retry_errors d :
  (∀ k max_attempts,
     k < max_attempts →
     (∀ i, i < k → judge expected retry_errors (respond d (executed d + i)) = Mismatch) →
     wrong_shape (respond d (executed d + k)) →
     pollQueryUntil max_attempts expected retry_errors d =
       (Raised QueryShapeError, after (S k) d)) ∧
  (∀ max_attempts,
     (∀ i, i < max_attempts →
        judge expected retry_errors (respond d (executed d + i)) = Mismatch) →
     pollQueryUntil max_attempts expected retry_errors d =
       (Raised PollTimeout, after max_attempts d)).
Proof.
  unfold pollQueryUntil. split.
  - intros k max_attempts Hk Hmis Hbad.
    replace max_attempts with (k + S (max_attempts - S k)) by lia.
    rewrite poll_loop_mismatches by done.
    cbn [poll_loop]. unfold mbind, M_bind, execute. cbn [respond executed after].
    rewrite (judge_wrong_shape _ _ _ Hbad). unfold raise, after.
    do 2 f_equal. lia.
  - intros max_attempts Hmis.
    rewrite <- (Nat.add_0_r max_attempts) at 1.
    by rewrite poll_loop_mismatches.
Qed.

(** * The properties at work on the concrete environment *)

(** [test_backup_exhaust]: the first spawn exhausts the backup, the second
    is refused. *)
Example test_backup_exhaust :
  let '(r1, st1) := spawn_primary (E:=env0) (Some "node1") None None st0 in
  let '(r2, st2) := spawn_primary (E:=env0) (Some "node2") None None st1 in
  r1 = Returned 2 ∧ r2 = Raised exhausted ∧ st2 = st1.
Proof. vm_compute. done. Qed.

(** [test_backup_multiple]: two spawns with [destroy=False], and the base
    directories of the two nodes. *)
Example test_backup_multiple :
  let '(rs, st') := spawn_many (E:=env0) [(Some "node1", None); (Some "node2", None)] st0 in
  rs = [Returned 2; Returned 3] ∧
  PostgresNode.base_dir <$> nodes (world st') !! 2 = Some ["tmp"; "0"] ∧
  PostgresNode.base_dir <$> nodes (world st') !! 3 = Some ["tmp"; "1"] ∧
  os_path_isdir (fs (world st')) ["tmp"; "1"; "data"] = true ∧
  os_path_isdir (fs (world st')) ["bak"; "data"] = true.
Proof. vm_compute. done. Qed.

Example test_spawn_replica :
  let '(r, st') := spawn_replica (E:=env0) (Some "replica") None None st0 in
  r = Returned 2 ∧
  PostgresNode.master <$> nodes (world st') !! 2 = Some (Some 0) ∧
  os_path_exists (fs (world st')) ["bak"; "data"; "recovery.conf"] = true.
Proof. vm_compute. done. Qed.

Example test_poll_two_columns :
  pollQueryUntil 5 (MatchValue (SBool true)) false db_two_columns
    = (Raised QueryShapeError, after 1 db_two_columns).
Proof. reflexivity. Qed.

Lemma exhausted_backup_refuses_spawn_witness :
  NodeBackup._available (self st_exhausted) = false ∧
  spawn_primary (E:=env0) (Some "node2") None None st_exhausted
    = (Raised exhausted, st_exhausted).
Proof.
  split; [reflexivity|].
  destruct (exhausted_backup_refuses_spawn (E:=env0) (Some "node2") None None []
              st_exhausted eq_refl) as (_ & Hp & _).
  exact Hp.
Defined.

Lemma spawn_primary_destroy_hands_over_witness :
  NodeBackup._available (self st0) = true ∧
  _prepare_dir (E:=env0) true st0 = (Returned ["bak"], set_self_available false st0).
Proof.
  split; [reflexivity|].
  exact (proj1 (spawn_primary_destroy_hands_over (E:=env0) None None st0 eq_refl)).
Defined.

(** In [st_broken] the data directory of the backup is gone, so the copy
    into [/tmp/0] fails. *)
Lemma copy_failure_keeps_backup_witness :
  NodeBackup._available (self st_broken) = true ∧
  ∃ w2,
    spawn_primary (E:=env0) None (Some false) None st_broken =
      (Raised (BackupException "Failed to copy files"
                 (Some (OSError "No such file or directory"))),
       mkSt backup0 w2).
Proof.
  split; [reflexivity|].
  eexists.
  refine (proj1 (copy_failure_keeps_backup (E:=env0) None None st_broken
                   ["tmp"; "0"] _ (OSError "No such file or directory") _
                   eq_refl _ _)).
  - vm_compute. reflexivity.
  - vm_compute. reflexivity.
Defined.


Lemma cleanup_after_destroy_is_noop_witness :
  NodeBackup._available (self st0) = true ∧
  let st' := (spawn_primary (E:=env0) (Some "node1") None None st0).2 in
  cleanup st' = (Returned tt, st').
Proof.
  split; [reflexivity|]. cbn zeta.
  destruct (spawn_primary _ _ _ st0) as [r st'] eqn:Hsp.
  exact (proj1 (cleanup_after_destroy_is_noop (E:=env0) _ None _ st0
                  eq_refl eq_refl r st' Hsp)).
Defined.

Lemma poll_shape_error_and_timeout_witness :
  pollQueryUntil 5 (MatchValue (SBool true)) false db_no_rows
    = (Raised QueryShapeError, after 1 db_no_rows) ∧
  pollQueryUntil 3 (MatchValue (SInt 1)) false db_select_3
    = (Raised PollTimeout, after 3 db_select_3).
Proof.
  split.
  - apply (proj1 (poll_shape_error_and_timeout (MatchValue (SBool true)) false
                    db_no_rows) 0 5).
    + lia.
    + intros i Hi. lia.
    + left. reflexivity.
  - apply (proj2 (poll_shape_error_and_timeout (MatchValue (SInt 1)) false
                    db_select_3) 3).
    intros i Hi. reflexivity.
Defined.

(** C5, as stated, fails: with [destroy] left out, [spawn_primary] and
    [spawn_replica] clear the availability flag of the backup [backup0],
    and [spawn_primary] does not do what it does with [destroy=False]. *)
Lemma destroy_default_false_counterexample :
  NodeBackup._available (self st0) = true ∧
  NodeBackup._available
    (self (spawn_primary (E:=env0) (Some "node1") None None st0).2) = false ∧
  NodeBackup._available
    (self (spawn_replica (E:=env0) (Some "node1") None None st0).2) = false ∧
  spawn_primary (E:=env0) (Some "node1") None None st0
    ≠ spawn_primary (E:=env0) (Some "node1") (Some false) None st0.
Proof.
  split_and!; try (vm_compute; reflexivity).
  intros Heq.
  apply (f_equal (λ x, NodeBackup._available (self x.2))) in Heq.
  vm_compute in Heq. discriminate.
Qed.

(** * More properties of the code *)

(** ** File system *)

Lemma fs_remove_lookup_ne t p q :
  ¬ p `prefix_of` q → ¬ q `prefix_of` p →
  fs_lookup (fs_remove t p) q = fs_lookup t q.
Proof.
  revert t q. induction p as [|n p IH]; intros t q Hp Hq.
  { destruct Hp. apply prefix_nil. }
  destruct q as [|m q]; [destruct Hq; apply prefix_nil|].
  destruct t as [c|ch]; [done|]. destruct p as [|x p].
  - cbn [fs_remove fs_lookup]. rewrite lookup_delete_ne; [done|].
    intros ->. apply Hp. apply prefix_cons, prefix_nil.
  - cbn [fs_remove]. destruct (ch !! n) as [c|] eqn:Hc; [|done].
    cbn [fs_lookup]. destruct (decide (n = m)) as [->|Hne].
    + rewrite lookup_insert_eq, Hc. apply IH.
      * intros H. apply Hp. by apply prefix_cons.
      * intros H. apply Hq. by apply prefix_cons.
    + by rewrite lookup_insert_ne.
Qed.

Lemma fs_remove_exists t p q :
  ¬ p `prefix_of` q → fs_exists t q → fs_exists (fs_remove t p) q.
Proof.
  unfold fs_exists. revert t q. induction p as [|n p IH]; intros t q Hp Hq.
  { destruct Hp. apply prefix_nil. }
  destruct q as [|m q]; [by eexists|].
  destruct t as [c|ch]; [done|]. destruct p as [|x p].
  - cbn [fs_remove fs_lookup] in *. rewrite lookup_delete_ne; [done|].
    intros ->. apply Hp. apply prefix_cons, prefix_nil.
  - cbn [fs_remove]. destruct (ch !! n) as [c|] eqn:Hc; [|done].
    cbn [fs_lookup] in *. destruct (decide (n = m)) as [->|Hne].
    + rewrite lookup_insert_eq. rewrite Hc in Hq. apply IH; [|done].
      intros H. apply Hp. by apply prefix_cons.
    + by rewrite lookup_insert_ne.
Qed.

Section Extra.
Context {E : Env}.

Lemma cleanup_inv st :
  cleanup st =
    (Returned tt,
     if NodeBackup._available (self st) then
       mkSt (set_available false (self st))
         (if os_path_isdir (fs (world st)) (NodeBackup.base_dir (self st))
          then set_fs (fs_remove (fs (world st)) (NodeBackup.base_dir (self st)))
                 (world st)
          else world st)
     else st).
Proof.
  unfold cleanup, shutil_rmtree. unfold_M. destruct (NodeBackup._available _); [|done].
  by destruct (os_path_isdir _ _).
Qed.

Lemma cleanup_frame st :
  nodes (world (cleanup st).2) = nodes (world st) ∧
  bound_ports (world (cleanup st).2) = bound_ports (world st) ∧
  utility_calls (world (cleanup st).2) = utility_calls (world st) ∧
  ∀ q, ¬ NodeBackup.base_dir (self st) `prefix_of` q →
    (fs_exists (fs (world st)) q → fs_exists (fs (world (cleanup st).2)) q) ∧
    (¬ q `prefix_of` NodeBackup.base_dir (self st) →
     fs_lookup (fs (world (cleanup st).2)) q = fs_lookup (fs (world st)) q).
Proof.
  rewrite cleanup_inv. cbn [snd].
  destruct (NodeBackup._available (self st)); [|done]. cbn [world].
  destruct (os_path_isdir _ _); [|done].
  unfold set_fs. cbn [fs nodes bound_ports utility_calls].
  split_and!; try done. intros q Hq. split.
  - by apply fs_remove_exists.
  - intros Hq'. by apply fs_remove_lookup_ne.
Qed.

(** X3: [cleanup] touches nothing but the tree under the base directory:
    node objects, claimed ports and the trace of external tools are as
    before, every path that is not under the base directory still
    exists, and every path that is neither under nor above it holds what
    it held. *)
Theorem cleanup_touches_only_base_dir st :
  nodes (world (cleanup st).2) = nodes (world st) ∧
  bound_ports (world (cleanup st).2) = bound_ports (world st) ∧
  utility_calls (world (cleanup st).2) = utility_calls (world st) ∧
  ∀ q, ¬ NodeBackup.base_dir (self st) `prefix_of` q →
    (fs_exists (fs (world st)) q → fs_exists (fs (world (cleanup st).2)) q) ∧
    (¬ q `prefix_of` NodeBackup.base_dir (self st) →
     fs_lookup (fs (world (cleanup st).2)) q = fs_lookup (fs (world st)) q).
Proof. apply cleanup_frame. Qed.

Lemma run_call_self c st :
  ∃ b, self (run_call c st).2 = set_available b (self st).
Proof.
  destruct c; unfold run_call, forget, __exit__.
  - destruct (spawn_primary _ _ _ st) as [r st1] eqn:Hsp.
    by apply spawn_primary_inv in Hsp as [? _].
  - rewrite spawn_replica_unfold.
    destruct (spawn_primary _ _ _ st) as [[e|n] st1] eqn:Hsp;
      apply spawn_primary_inv in Hsp as [? _]; [done|].
    by destruct (wire_replica _ _ _) as [[e|[]] w2].
  - rewrite cleanup_inv. cbn [snd].
    destruct (NodeBackup._available (self st)) eqn:Ha; [by eexists|].
    exists false. by rewrite <- Ha, set_available_id.
  - rewrite cleanup_inv. cbn [snd].
    destruct (NodeBackup._available (self st)) eqn:Ha; [by eexists|].
    exists false. by rewrite <- Ha, set_available_id.
Qed.

(** X1: whatever is called on a backup, in whatever order, its original
    node, base directory and user name stay what they were, and its
    availability flag never comes back: a backup that is available after
    the calls was available before them. *)
Theorem backup_attributes_never_change cs st :
  NodeBackup.original_node (self (run_calls cs st)) = NodeBackup.original_node (self st) ∧
  NodeBackup.base_dir (self (run_calls cs st)) = NodeBackup.base_dir (self st) ∧
  NodeBackup.username (self (run_calls cs st)) = NodeBackup.username (self st) ∧
  (NodeBackup._available (self (run_calls cs st)) = true →
   NodeBackup._available (self st) = true).
Proof.
  split_and!.
  1-3: revert st; unfold run_calls; induction cs as [|c cs IH]; intros st; [done|];
    cbn [foldl]; rewrite IH; by destruct (run_call_self c st) as [b ->].
  destruct (NodeBackup._available (self st)) eqn:Ha; [done|].
  by rewrite run_calls_exhausted, Ha.
Qed.

(** X2: when the copy of [spawn_primary(destroy=False)] fails, the
    directory that [mkdtemp] made for it is left on disk: it did not
    exist before the call and exists after it, no node object and no
    port was created, and a later [cleanup] of the backup does not remove
    it either (unless it lies under the base directory of the backup). *)
Theorem failed_copy_leaves_directory name use_logging st d w1 e w2 :
  NodeBackup._available (self st) = true →
  tempfile_mkdtemp (world st) = (Returned d, w1) →
  shutil_copytree (os_path_join (NodeBackup.base_dir (self st)) DATA_DIR)
    (os_path_join d DATA_DIR) w1 = (Raised e, w2) →
  (spawn_primary name (Some false) use_logging st).2 = mkSt (self st) w2 ∧
  fs_lookup (fs (world st)) d = None ∧
  fs_exists (fs w2) d ∧
  nodes w2 = nodes (world st) ∧
  bound_ports w2 = bound_ports (world st) ∧
  (¬ NodeBackup.base_dir (self st) `prefix_of` d →
   fs_exists (fs (world (cleanup (mkSt (self st) w2)).2)) d).
Proof.
  intros Ha Hmk Hcp.
  assert (Hsp : (spawn_primary name (Some false) use_logging st).2 = mkSt (self st) w2).
  { rewrite spawn_primary_build_node.
    change (default true (Some false)) with false.
    by rewrite (prepare_dir_keep _ Ha), Hmk, Hcp. }
  apply mkdtemp_inv in Hmk as (Hb1 & Hn1 & _ & _ & Hd0 & Hd1 & _).
  apply copytree_inv in Hcp as (Hb2 & Hn2 & _ & Hf2 & _).
  assert (Hex : fs_exists (fs w2) d) by (apply Hf2; by eexists).
  split_and!; [done|done|done|congruence|congruence|].
  intros Hpre.
  destruct (cleanup_frame (mkSt (self st) w2)) as (_ & _ & _ & Hq).
  by apply (Hq d Hpre).
Qed.

Lemma prepare_dir_nodes destroy st r st1 :
  _prepare_dir destroy st = (r, st1) →
  nodes (world st1) = nodes (world st).
Proof.
  destruct (NodeBackup._available (self st)) eqn:Ha.
  - destruct destroy.
    + rewrite (prepare_dir_destroy _ Ha). by intros [= <- <-].
    + intros Hp. by apply (prepare_dir_keep_inv _ _ _ Ha) in Hp as (_ & ? & _).
  - rewrite (prepare_dir_exhausted _ _ Ha). by intros [= <- <-].
Qed.

Lemma wire_replica_nodes n bk w r w' :
  wire_replica n bk w = (r, w') →
  ∀ m, m ≠ n → nodes w' !! m = nodes w !! m.
Proof.
  unfold wire_replica, _assign_master. unfold mbind, M_bind.
  destruct (update_node _ _ _) as [r1 w1] eqn:Hup. apply update_node_inv in Hup.
  destruct (nodes w !! n) as [N|]; [destruct Hup as [-> ->]|];
    [|destruct Hup as (-> & msg & ->); by intros [= <- <-]].
  assert (Hw1 : ∀ m, m ≠ n →
    nodes (set_nodes (<[n:=set_master (Some (NodeBackup.original_node bk)) N]>
                        (nodes w)) w) !! m = nodes w !! m).
  { intros m Hm. unfold set_nodes. cbn [nodes]. by rewrite lookup_insert_ne. }
  unfold _create_recovery_conf, get_node. unfold mbind, M_bind, raise.
  destruct (_ !! n) as [N'|]; [|by intros [= <- <-]].
  destruct (PostgresNode.master N') as [m'|]; [|by intros [= <- <-]].
  destruct (_ !! m') as [Mn|]; [|by intros [= <- <-]].
  intros Hac. apply append_conf_inv in Hac as (_ & Hn & _).
  intros m Hm. rewrite Hn. by apply Hw1.
Qed.

(** X4: [spawn_primary] and [spawn_replica] leave every node object that
    existed as it was (the original node of the backup among them),
    whether they return or raise, and the instance they return is a new
    object. *)
Theorem spawn_keeps_existing_nodes name destroy use_logging st :
  (∀ r st', spawn_primary name destroy use_logging st = (r, st') →
     (∀ m Nm, nodes (world st) !! m = Some Nm → nodes (world st') !! m = Some Nm) ∧
     ∀ n, r = Returned n → nodes (world st) !! n = None) ∧
  (∀ r st', spawn_replica name destroy use_logging st = (r, st') →
     (∀ m Nm, nodes (world st) !! m = Some Nm → nodes (world st') !! m = Some Nm) ∧
     ∀ n, r = Returned n → nodes (world st) !! n = None).
Proof.
  assert (Hprim : ∀ r st', spawn_primary name destroy use_logging st = (r, st') →
     (∀ m Nm, nodes (world st) !! m = Some Nm → nodes (world st') !! m = Some Nm) ∧
     ∀ n, r = Returned n → nodes (world st) !! n = None).
  { intros r st'. rewrite spawn_primary_build_node.
    destruct (_prepare_dir _ st) as [[e|dir] st1] eqn:Hp;
      apply prepare_dir_nodes in Hp.
    { intros [= <- <-]. split; [intros; congruence|done]. }
    unfold in_world. destruct (build_node _ _ _ _) as [r' w2] eqn:Hb.
    intros [= <- <-]. apply build_node_inv in Hb as (_ & Hn & _ & Hr).
    cbn [world]. split.
    - intros m Nm Hm. apply Hn. congruence.
    - intros n ->. destruct Hr as [Hr _]. congruence. }
  split; [exact Hprim|]. intros r st'. rewrite spawn_replica_unfold.
  destruct (spawn_primary _ _ _ st) as [[e|n] st1] eqn:Hsp;
    destruct (Hprim _ _ eq_refl) as [Hold Hnew].
  { by intros [= <- <-]. }
  specialize (Hnew n eq_refl).
  destruct (wire_replica _ _ _) as [r2 w2] eqn:Hw.
  assert (Hkeep : ∀ m Nm, nodes (world st) !! m = Some Nm → nodes w2 !! m = Some Nm).
  { intros m Nm Hm. rewrite (wire_replica_nodes _ _ _ _ _ Hw); [by apply Hold|].
    intros ->. congruence. }
  destruct r2 as [e|[]]; intros [= <- <-]; cbn [world]; split; try done.
  by intros ? [= <-].
Qed.

Lemma open_append_fs f text w r w' :
  open_append f text w = (r, w') →
  nodes w' = nodes w ∧
  (∀ q, ¬ f `prefix_of` q → ¬ q `prefix_of` f →
     fs_lookup (fs w') q = fs_lookup (fs w) q) ∧
  (r = Returned tt →
   fs_lookup (fs w') f = Some (File (file_content (fs w) f +:+ text))).
Proof.
  unfold open_append, file_content.
  destruct f as [|n f]; [by intros [= <- <-]|].
  destruct (os_path_isdir _ _); [|by intros [= <- <-]].
  destruct (fs_lookup (fs w) (n :: f)) as [[c|ch]|] eqn:Hl;
    [| by intros [= <- <-] |].
  all: destruct (fs_install _ _ _) as [f'|] eqn:Hi; [|by intros [= <- <-]].
  all: intros [= <- <-]; unfold set_fs; cbn [fs nodes]; split_and!; [done| |].
  all: try (intros q Hq Hq'; by eapply fs_install_lookup_ne).
  all: intros _; by eapply fs_install_lookup.
Qed.

Lemma append_conf_eq n N filename text w :
  nodes w !! n = Some N →
  append_conf n filename text w
  = open_append (os_path_join (data_dir N) filename) text w.
Proof.
  intros HN. unfold append_conf, get_node. unfold mbind, M_bind. by rewrite HN.
Qed.

(** What [build_node] does to the file system: two lines at the end of
    the [postgresql.conf] of the directory it is given. *)
Lemma build_node_fs name dir use_logging w r w' :
  build_node name dir use_logging w = (r, w') →
  (∀ q, ¬ postgresql_conf dir `prefix_of` q → ¬ q `prefix_of` postgresql_conf dir →
     fs_lookup (fs w') q = fs_lookup (fs w) q) ∧
  ∀ n, r = Returned n →
    ∃ N, nodes w' !! n = Some N ∧ PostgresNode.base_dir N = dir ∧
      fs_lookup (fs w') (postgresql_conf dir)
      = Some (File ((file_content (fs w) (postgresql_conf dir) +:+ nl)
                      +:+ ("port = " +:+ pretty (PostgresNode.port N)))).
Proof.
  unfold build_node. unfold mbind, M_bind, mret, M_ret.
  destruct (PostgresNode_new _ _ _ w) as [[e|n] w1] eqn:Hnew;
    apply PostgresNode_new_inv in Hnew.
  { destruct Hnew as [-> ->]. by intros [= <- <-]. }
  destruct Hnew as (Hn & p & s & Hp & ->).
  destruct (update_node _ _ _) as [[e|[]] w2] eqn:Hup;
    apply update_node_inv in Hup; cbn [nodes] in Hup;
    rewrite lookup_insert_eq in Hup; destruct Hup as [Hr ->]; [done|].
  unfold set_nodes. cbn [nodes fs bound_ports utility_calls].
  rewrite insert_insert_eq.
  change (set_should_rm_dirs true (set_should_rm_dirs false ?N))
    with (set_should_rm_dirs true N).
  change (set_should_rm_dirs true (built_node name dir use_logging n p s))
    with (built_node name dir use_logging n p s).
  set (N := built_node name dir use_logging n p s).
  set (w1 := mkWorld _ _ _ _).
  assert (HN1 : nodes w1 !! n = Some N) by (unfold w1; cbn; by rewrite lookup_insert_eq).
  rewrite (append_conf_eq _ _ _ _ _ HN1).
  change (os_path_join (data_dir N) "postgresql.conf") with (postgresql_conf dir).
  destruct (open_append _ _ w1) as [r2 w2] eqn:Ha1.
  apply open_append_fs in Ha1 as (Hn2 & Hf2 & Hc2).
  change (fs w1) with (fs w) in Hf2, Hc2.
  destruct r2 as [e|[]]; [intros [= <- <-]; by split|].
  specialize (Hc2 eq_refl).
  assert (HN2 : nodes w2 !! n = Some N) by by rewrite Hn2.
  unfold get_node at 1. rewrite HN2. rewrite (append_conf_eq _ _ _ _ _ HN2).
  change (os_path_join (data_dir N) "postgresql.conf") with (postgresql_conf dir).
  destruct (open_append _ _ w2) as [r3 w3] eqn:Ha2.
  apply open_append_fs in Ha2 as (Hn3 & Hf3 & Hc3).
  assert (Hframe : ∀ q, ¬ postgresql_conf dir `prefix_of` q →
            ¬ q `prefix_of` postgresql_conf dir →
            fs_lookup (fs w3) q = fs_lookup (fs w) q).
  { intros q Hq Hq'. rewrite Hf3, Hf2; done. }
  destruct r3 as [e|[]]; intros [= <- <-]; (split; [done|]); [done|].
  intros ? [= <-]. exists N. split_and!; [by rewrite Hn3|done|].
  rewrite (Hc3 eq_refl). unfold file_content at 1. by rewrite Hc2.
Qed.




Lemma init_fresh_dir node username xlog_method w bk w' :
  __init__ node None username xlog_method w = (Returned bk, w') →
  fs_lookup (fs w) (NodeBackup.base_dir bk) = None ∧
  NodeBackup._available bk = true ∧ NodeBackup.original_node bk = node.
Proof.
  unfold __init__, status, get_node. unfold mbind, M_bind, mret, M_ret, raise.
  destruct (nodes w !! node) as [N|]; [|done].
  destruct (negb _); [done|].
  destruct (tempfile_mkdtemp w) as [[e|d] w1] eqn:Hmk; [done|].
  apply mkdtemp_inv in Hmk as (_ & _ & _ & _ & Hd & _).
  destruct (nodes w1 !! node) as [N'|]; [|done].
  destruct (_execute_utility _ _ _) as [[e|out] w2]; [done|].
  by intros [= <- <-].
Qed.

(** X8: two backups taken one after the other without a base directory
    get different base directories, each new when it was made, provided
    the directory of the first is still there when the second is taken
    ([test_backup_multiple]). *)
Theorem backups_get_distinct_directories
    node1 username1 xlog1 node2 username2 xlog2 w bk1 w1 bk2 w2 :
  __init__ node1 None username1 xlog1 w = (Returned bk1, w1) →
  fs_exists (fs w1) (NodeBackup.base_dir bk1) →
  __init__ node2 None username2 xlog2 w1 = (Returned bk2, w2) →
  NodeBackup.base_dir bk1 ≠ NodeBackup.base_dir bk2 ∧
  fs_lookup (fs w) (NodeBackup.base_dir bk1) = None ∧
  fs_lookup (fs w1) (NodeBackup.base_dir bk2) = None.
Proof.
  intros H1 [x Hx] H2.
  apply init_fresh_dir in H1 as (Hf1 & _). apply init_fresh_dir in H2 as (Hf2 & _).
  split_and!; [|done|done]. intros Heq. congruence.
Qed.

End Extra.

(** ** The [with] statement *)

(** X9: a [with] block on a backup gives the outcome of its body, an
    exception included, and leaves the state that [cleanup] makes of the
    state the body left: the backup is exhausted on the way out, and when
    the body has already exhausted it (a spawn with [destroy=True]),
    leaving the block changes nothing. *)
Theorem with_backup_always_cleans_up {A} (body : M BackupSt A) st :
  with_backup body st = ((body st).1, (cleanup (body st).2).2) ∧
  NodeBackup._available (self (with_backup body st).2) = false ∧
  (NodeBackup._available (self (body st).2) = false →
   (with_backup body st).2 = (body st).2).
Proof.
  assert (Heq : with_backup body st = ((body st).1, (cleanup (body st).2).2)).
  { unfold with_backup, __enter__, __exit__, gets.
    destruct (body st) as [r st1]. cbn [fst snd]. by rewrite cleanup_inv. }
  rewrite Heq. cbn [snd]. split_and!; [done| |].
  - rewrite cleanup_inv. cbn [snd].
    by destruct (NodeBackup._available (self (body st).2)) eqn:Ha.
  - intros Hx. by rewrite cleanup_exhausted.
Qed.

(** ** [util_is_executable] *)

Lemma search_PATH_Some_true os util paths :
  search_PATH os util paths = Some true ↔
  ∃ path, path ∈ paths ∧ os_exists os (posixpath_join path util) = true.
Proof.
  induction paths as [|p paths IH]; simpl.
  - split; [done|]. intros (path & Hin & _). by apply elem_of_nil in Hin.
  - destruct (os_exists os (posixpath_join p util)) eqn:Hp.
    + split; [|done]. intros _. exists p. split; [left|done].
    + rewrite IH. split.
      * intros (path & Hin & Hex). exists path. split; [by right|done].
      * intros (path & Hin & Hex). apply elem_of_cons in Hin as [->|Hin];
          [congruence|]. eauto.
Qed.

Lemma search_PATH_not_false os util paths :
  search_PATH os util paths ≠ Some false.
Proof.
  induction paths as [|p paths IH]; simpl; [done|].
  by destruct (os_exists os (posixpath_join p util)).
Qed.

Lemma posixpath_join_absolute a b : startswith os_sep b = true → posixpath_join a b = b.
Proof. intros Hb. unfold posixpath_join. by rewrite Hb. Qed.

Lemma str_split_nonempty sep s : str_split sep s ≠ [].
Proof.
  induction s as [|c s IH]; simpl; [done|].
  destruct (bool_decide (c = sep)); [done|]. by destruct (str_split sep s).
Qed.

(** X10: [util_is_executable] returns [True] exactly when the file named
    by [get_bin_path] exists or some entry of [PATH], joined with the
    name, exists; it never returns [False] (it falls off the end, giving
    [None]); it raises [KeyError] exactly when the first file is missing
    and [PATH] is not set; and for an absolute name every entry of
    [PATH] is ignored by [os.path.join]. *)
Theorem util_is_executable_spec {E : Env} os util :
  (util_is_executable os util = Value (Some true) ↔
   os_exists os (get_bin_path util) = true ∨
   ∃ PATH path, os_environ os !! "PATH" = Some PATH ∧
     path ∈ str_split os_pathsep PATH ∧
     os_exists os (posixpath_join path util) = true) ∧
  util_is_executable os util ≠ Value (Some false) ∧
  (∀ key, util_is_executable os util = KeyError key ↔
     key = "PATH" ∧ os_exists os (get_bin_path util) = false ∧
     os_environ os !! "PATH" = None) ∧
  (startswith os_sep util = true → os_exists os (get_bin_path util) = false →
   is_Some (os_environ os !! "PATH") →
   util_is_executable os util
     = Value (if os_exists os util then Some true else None)).
Proof.
  unfold util_is_executable. split_and!.
  - destruct (os_exists os (get_bin_path util)) eqn:Hbin; [split; eauto|].
    destruct (os_environ os !! "PATH") as [PATH|] eqn:HP.
    + split.
      * intros [= Hs]. apply search_PATH_Some_true in Hs as (path & Hin & Hex).
        right. by exists PATH, path.
      * intros [?|(PATH' & path & [= <-] & Hin & Hex)]; [done|].
        f_equal. apply search_PATH_Some_true. eauto.
    + split; [done|]. intros [?|(PATH' & path & ? & _)]; done.
  - destruct (os_exists os (get_bin_path util)); [done|].
    destruct (os_environ os !! "PATH"); [|done].
    intros [= Hs]. by apply search_PATH_not_false in Hs.
  - intros key. destruct (os_exists os (get_bin_path util)).
    { split; [done|]. by intros (_ & ? & _). }
    destruct (os_environ os !! "PATH").
    + split; [done|]. by intros (_ & _ & ?).
    + split; [by intros [= <-]|]. by intros (-> & _).
  - intros Habs Hbin [PATH HP]. rewrite Hbin, HP. f_equal.
    pose proof (str_split_nonempty os_pathsep PATH) as Hne.
    induction (str_split os_pathsep PATH) as [|p paths IH]; [done|].
    cbn [search_PATH]. rewrite (posixpath_join_absolute _ _ Habs).
    destruct (os_exists os util) eqn:Hu; [done|].
    destruct paths as [|p' paths]; [done|]. by apply IH.
Qed.

(** ** These properties on the concrete environment *)

Lemma failed_copy_leaves_directory_witness :
  NodeBackup._available (self st_broken) = true ∧
  fs_lookup (fs (world st_broken)) ["tmp"; "0"] = None ∧
  fs_exists (fs (world (spawn_primary (E:=env0) None (Some false) None st_broken).2))
    ["tmp"; "0"].
Proof.
  split; [reflexivity|].
  assert (Hw : ∃ w1 w2,
    tempfile_mkdtemp (E:=env0) (world st_broken) = (Returned ["tmp"; "0"], w1) ∧
    shutil_copytree (E:=env0) ["bak"; "data"] ["tmp"; "0"; "data"] w1
      = (Raised (OSError "No such file or directory"), w2)).
  { do 2 eexists. split; vm_compute; reflexivity. }
  destruct Hw as (w1 & w2 & Hmk & Hcp).
  destruct (failed_copy_leaves_directory (E:=env0) None None st_broken _ _ _ _
              eq_refl Hmk Hcp) as (Hst & Hnew & Hex & _).
  split; [exact Hnew|]. rewrite Hst. exact Hex.
Defined.


Lemma backups_get_distinct_directories_witness :
  ["tmp"; "0"] ≠ ["tmp"; "1"].
Proof.
  assert (Hw : ∃ w1 w2,
    __init__ (E:=env0) 0 None None None world0
      = (Returned (NodeBackup.mk 0 ["tmp"; "0"] "postgres" true), w1) ∧
    fs_exists (fs w1) ["tmp"; "0"] ∧
    __init__ (E:=env0) 0 None (Some "backup") (Some "stream") w1
      = (Returned (NodeBackup.mk 0 ["tmp"; "1"] "backup" true), w2)).
  { do 2 eexists. split_and!.
    - vm_compute. reflexivity.
    - vm_compute. eexists. reflexivity.
    - vm_compute. reflexivity. }
  destruct Hw as (w1 & w2 & H1 & Hex & H2).
  exact (proj1 (backups_get_distinct_directories (E:=env0) _ _ _ _ _ _ _ _ _ _ _
                  H1 Hex H2)).
Defined.

(** [pg_ctl] is found next to the other binaries, [psql] on the [PATH],
    [initdb] nowhere; without [PATH] the lookup of [initdb] raises. *)
Example util_is_executable_examples :
  util_is_executable (E:=env0) os0 "pg_ctl" = Value (Some true) ∧
  util_is_executable (E:=env0) os0 "psql" = Value (Some true) ∧
  util_is_executable (E:=env0) os0 "initdb" = Value None ∧
  util_is_executable (E:=env0) (mkOs (os_exists os0) ∅) "initdb" = KeyError "PATH" ∧
  str_split os_pathsep "/usr/local/bin::/opt/pg/bin:" = ["/usr/local/bin"; ""; "/opt/pg/bin"; ""].
Proof. vm_compute. done. Qed.

(** [test_backup_simple]: a backup in a [with] block, consumed by the
    spawn: the directory handed to the node outlives the block. *)
Example with_backup_spawn :
  let '(r, st') :=
    with_backup (spawn_primary (E:=env0) (Some "slave") None None) st0 in
  r = Returned 2 ∧ NodeBackup._available (self st') = false ∧
  os_path_isdir (fs (world st')) ["bak"; "data"] = true.
Proof. vm_compute. done. Qed.

(** A backup in a [with] block whose body spawns with [destroy=False]: the
    storage of the backup is gone after the block, the copy is not. *)
Example with_backup_keep :
  let '(r, st') :=
    with_backup (spawn_primary (E:=env0) (Some "node1") (Some false) None) st0 in
  r = Returned 2 ∧ NodeBackup._available (self st') = false ∧
  os_path_exists (fs (world st')) ["bak"] = false ∧
  os_path_isdir (fs (world st')) ["tmp"; "0"; "data"] = true.
Proof. vm_compute. done. Qed.

(** ** Spawning with [destroy=False] *)

Lemma fs_install_parent t p n new :
  os_path_isdir t p = true → is_Some (fs_install t (p ++ [n]) new).
Proof.
  unfold os_path_isdir. revert t. induction p as [|m p IH]; intros t; simpl.
  - destruct t as [c|ch]; [done|]. intros _. by eexists.
  - destruct t as [c|ch]; [done|]. destruct (ch !! m) as [c|] eqn:Hc; [|done].
    intros Hp. simpl. destruct (IH c Hp) as [c' ->]. by eexists.
Qed.

Lemma fs_lookup_snoc_isdir t p n e :
  fs_lookup t (p ++ [n]) = Some e → os_path_isdir t p = true.
Proof.
  unfold os_path_isdir. rewrite fs_lookup_app.
  by destruct (fs_lookup t p) as [[c|ch]|].
Qed.

Lemma prefix_snoc_cases (s k : path) x :
  s `prefix_of` k ++ [x] → s `prefix_of` k ∨ s = k ++ [x].
Proof.
  intros [r Hr]. destruct r as [|y r _] using rev_ind.
  - right. by rewrite app_nil_r in Hr.
  - left. rewrite app_assoc in Hr. apply app_inj_tail in Hr as [-> _].
    by apply prefix_app_r.
Qed.

Lemma unrelated_app (d s k : path) :
  ¬ d `prefix_of` s → ¬ s `prefix_of` d →
  ¬ d ++ k `prefix_of` s ∧ ¬ s `prefix_of` d ++ k.
Proof.
  intros Hds Hsd. split; intros H.
  - apply Hds. by eapply prefix_app_l.
  - destruct (prefix_weak_total s d (d ++ k)) as [?|?]; [done| |done|done].
    by apply prefix_app_r.
Qed.

Section Keep.
Context {E : Env}.

Lemma mkdtemp_returns w :
  os_path_isdir (fs w) gettempdir = true →
  ∃ d w1, tempfile_mkdtemp w = (Returned d, w1).
Proof.
  intros Ht. unfold tempfile_mkdtemp.
  pose proof Ht as Ht'. unfold os_path_isdir in Ht'.
  destruct (fs_lookup (fs w) gettempdir) as [[c|ch]|]; try done.
  destruct (fs_install_parent (fs w) gettempdir (mkdtemp_name (dom ch)) (Dir ∅) Ht)
    as [f' Hf]. unfold os_path_join. rewrite Hf. eauto.
Qed.

Lemma copytree_returns src dst_parent name w ch :
  fs_lookup (fs w) src = Some (Dir ch) →
  fs_lookup (fs w) dst_parent = Some (Dir ∅) →
  copytree_fault (fs w) src (os_path_join dst_parent name) = None →
  ∃ w', shutil_copytree src (os_path_join dst_parent name) w = (Returned tt, w').
Proof.
  intros Hs Hd Hfault. unfold shutil_copytree, os_path_exists. rewrite Hs.
  unfold os_path_join in *. rewrite fs_lookup_app, Hd. simpl.
  rewrite lookup_empty, Hfault.
  destruct (fs_install_parent (fs w) dst_parent name (Dir ch)) as [f' Hf'].
  { unfold os_path_isdir. by rewrite Hd. }
  rewrite Hf'. eauto.
Qed.

Lemma open_append_returns parent name text w :
  os_path_isdir (fs w) parent = true →
  (∀ x, fs_lookup (fs w) (os_path_join parent name) ≠ Some (Dir x)) →
  ∃ w', open_append (os_path_join parent name) text w = (Returned tt, w').
Proof.
  intros Hp Hf. unfold open_append, os_path_join in *.
  destruct (parent ++ [name]) as [|a f] eqn:Hpn; [by destruct parent|].
  rewrite <- Hpn in Hf |- *. rewrite removelast_last, Hp.
  destruct (fs_lookup (fs w) (parent ++ [name])) as [[c|ch]|] eqn:Hl;
    [|by destruct (Hf ch)|].
  - destruct (fs_install_parent (fs w) parent name (File (c +:+ text)) Hp)
      as [f' ->]. eauto.
  - destruct (fs_install_parent (fs w) parent name (File ("" +:+ text)) Hp)
      as [f' ->]. eauto.
Qed.

Lemma PostgresNode_new_returns name dir use_logging w p :
  select_port (bound_ports w) = Some p →
  ∃ s, PostgresNode_new name dir use_logging w =
    (Returned (fresh (dom (nodes w))),
     mkWorld (fs w) ({[p]} ∪ bound_ports w)
       (<[fresh (dom (nodes w)) :=
            set_should_rm_dirs false
              (built_node name dir use_logging (fresh (dom (nodes w))) p s)]> (nodes w))
       (utility_calls w)).
Proof.
  intros Hp. unfold PostgresNode_new, reserve_port. unfold_M. rewrite Hp.
  eexists. reflexivity.
Qed.

Lemma update_node_returns n f w N :
  nodes w !! n = Some N →
  update_node n f w = (Returned tt, set_nodes (<[n := f N]> (nodes w)) w).
Proof.
  intros HN. unfold update_node, get_node. unfold_M. by rewrite HN.
Qed.

Lemma build_node_returns name dir use_logging w p ch :
  select_port (bound_ports w) = Some p →
  fs_lookup (fs w) (os_path_join dir DATA_DIR) = Some (Dir ch) →
  (∀ x, ch !! "postgresql.conf" ≠ Some (Dir x)) →
  ∃ w', build_node name dir use_logging w = (Returned (fresh (dom (nodes w))), w').
Proof.
  intros Hp Hdata Hconf. unfold build_node. unfold mbind, M_bind, mret, M_ret.
  destruct (PostgresNode_new_returns name dir use_logging w p Hp) as [s ->].
  set (n := fresh (dom (nodes w))).
  set (N0 := set_should_rm_dirs false (built_node name dir use_logging n p s)).
  set (w0 := mkWorld _ _ _ _).
  assert (HN0 : nodes w0 !! n = Some N0) by (unfold w0; cbn; by rewrite lookup_insert_eq).
  rewrite (update_node_returns _ _ _ _ HN0).
  set (N := set_should_rm_dirs true N0).
  set (w1 := set_nodes _ w0).
  assert (HN1 : nodes w1 !! n = Some N) by (unfold w1; cbn; by rewrite lookup_insert_eq).
  assert (Hdir : PostgresNode.base_dir N = dir) by done.
  rewrite (append_conf_eq _ _ _ _ _ HN1). unfold data_dir. rewrite Hdir.
  destruct (open_append_returns (os_path_join dir DATA_DIR) "postgresql.conf" nl w1)
    as [w2 Ha1].
  { unfold os_path_isdir. change (fs w1) with (fs w). by rewrite Hdata. }
  { intros x. unfold os_path_join. rewrite fs_lookup_app.
    change (fs w1) with (fs w). unfold os_path_join in Hdata. rewrite Hdata.
    simpl. destruct (ch !! "postgresql.conf") as [c|] eqn:Hc; [|done].
    intros [= ->]. by eapply Hconf. }
  rewrite Ha1. pose proof Ha1 as Ha1'.
  apply open_append_fs in Ha1' as (Hn2 & _ & Hc2). specialize (Hc2 eq_refl).
  assert (HN2 : nodes w2 !! n = Some N) by by rewrite Hn2.
  unfold get_node at 1. rewrite HN2, (append_conf_eq _ _ _ _ _ HN2).
  unfold data_dir. rewrite Hdir.
  destruct (open_append_returns (os_path_join dir DATA_DIR) "postgresql.conf"
              ("port = " +:+ pretty (PostgresNode.port N)) w2) as [w3 Ha2].
  { eapply fs_lookup_snoc_isdir. exact Hc2. }
  { intros x. by rewrite Hc2. }
  rewrite Ha2. eauto.
Qed.

(** One [spawn_primary(destroy=False)] on a ready backup, as far as
    it gets. *)
Lemma spawn_primary_keep_returns name use_logging st :
  NodeBackup._available (self st) = true →
  spawn_ready st →
  ∃ d w1,
    tempfile_mkdtemp (world st) = (Returned d, w1) ∧
    (copytree_fault (fs w1)
       (os_path_join (NodeBackup.base_dir (self st)) DATA_DIR)
       (os_path_join d DATA_DIR) = None →
     is_Some (select_port (bound_ports (world st))) →
     ∃ st', spawn_primary name (Some false) use_logging st
              = (Returned (fresh (dom (nodes (world st)))), st') ∧
            NodeBackup._available (self st') = true ∧
            spawn_ready st').
Proof.
  intros Ha (Htmp & (ch & Hsrc & Hconf) & Hpre).
  set (src := os_path_join (NodeBackup.base_dir (self st)) DATA_DIR) in *.
  destruct (mkdtemp_returns _ Htmp) as (d & w1 & Hmk).
  exists d, w1. split; [done|]. intros Hfault [p Hp].
  pose proof Hmk as Hmk'.
  apply mkdtemp_inv in Hmk' as (Hb1 & Hn1 & _ & Hf1 & Hd0 & Hd1 & name' & Hname & Hi1).
  assert (Hds : ¬ d `prefix_of` src).
  { intros [k Hk]. assert (fs_exists (fs (world st)) d) as [x Hx]; [|congruence].
    apply (fs_exists_app_l _ _ k). rewrite <- Hk. by eexists. }
  assert (Hsd : ¬ src `prefix_of` d).
  { rewrite Hname. unfold os_path_join. intros Hp'.
    apply prefix_snoc_cases in Hp' as [?|Heq]; [done|].
    unfold os_path_join in Hname. congruence. }
  assert (Hsrc1 : fs_lookup (fs w1) src = Some (Dir ch)).
  { rewrite <- Hsrc. by eapply fs_install_lookup_ne. }
  destruct (copytree_returns src d DATA_DIR w1 ch Hsrc1 Hd1 Hfault) as [w2 Hcp].
  pose proof Hcp as Hcp'.
  apply copytree_inv in Hcp' as (Hb2 & Hn2 & _ & Hf2 & ch' & Hsrc1' & Hdst1 & Hi2).
  assert (ch' = ch) as -> by congruence.
  destruct (unrelated_app d src [DATA_DIR] Hds Hsd) as [Hds2 Hsd2].
  assert (Hsrc2 : fs_lookup (fs w2) src = Some (Dir ch)).
  { rewrite <- Hsrc1. by eapply fs_install_lookup_ne. }
  assert (Hdst2 : fs_lookup (fs w2) (os_path_join d DATA_DIR) = Some (Dir ch))
    by by eapply fs_install_lookup.
  assert (Hp2 : select_port (bound_ports w2) = Some p) by congruence.
  destruct (build_node_returns name d (default false use_logging) w2 p ch Hp2 Hdst2 Hconf)
    as [w3 Hbn].
  exists (mkSt (self st) w3). split_and!.
  - subst src. rewrite spawn_primary_build_node.
    change (default true (Some false)) with false.
    rewrite (prepare_dir_keep _ Ha), Hmk, Hcp. unfold in_world. cbn [world self].
    rewrite Hbn. do 3 f_equal. congruence.
  - done.
  - pose proof Hbn as Hinv. apply build_node_inv in Hinv as (Hf3 & _).
    apply build_node_fs in Hbn as [Hframe _]. cbn [self world].
    assert (Hd3 : fs_exists (fs w3) d) by (apply Hf3, Hf2; by eexists).
    split_and!.
    + destruct Hd3 as [x Hx]. rewrite Hname in Hx. by eapply fs_lookup_snoc_isdir.
    + exists ch. split; [|done]. fold src. rewrite <- Hsrc2.
      destruct (unrelated_app d src ([DATA_DIR] ++ ["postgresql.conf"]) Hds Hsd)
        as [Hc1 Hc2].
      rewrite app_assoc in Hc1, Hc2. by apply Hframe.
    + done.
Qed.

Lemma spawn_many_all_return args : ∀ st rs st',
  env_reliable →
  NodeBackup._available (self st) = true →
  spawn_ready st →
  spawn_many args st = (rs, st') →
  length rs = length args ∧ Forall (λ r, ∃ n, r = Returned n) rs.
Proof.
  induction args as [|[name use_logging] args IH]; intros st rs st' Henv Ha Hready;
    cbn [spawn_many].
  { intros [= <- <-]. by split. }
  destruct (spawn_primary_keep_returns name use_logging st Ha Hready)
    as (d & w1 & _ & Hok).
  destruct Henv as [Hnofault Hports].
  destruct (Hok (Hnofault _ _ _) (Hports _)) as (st1 & -> & Ha1 & Hready1).
  destruct (spawn_many args st1) as [rs' st2] eqn:Hrest.
  intros [= <- <-].
  destruct (IH _ _ _ (conj Hnofault Hports) Ha1 Hready1 Hrest) as [Hlen Hall].
  split; [simpl; congruence|]. constructor; [eauto|done].
Qed.

(** C2: [spawn_primary(destroy=False)] on an available backup makes a
    directory with [mkdtemp], copies the data directory of the backup
    into it and builds the instance on it; the backup stays as it is,
    so it stays available.  [_prepare_dir] and [spawn_primary] are
    pinned by their equations.  When the temporary directory and the
    data directory of the backup are there, the copy is not made to fail
    and a port is left, the call returns an instance and the backup is
    ready for the next call: in an environment where no copy fails and
    ports never run out, every call of any run of such calls returns an
    instance.  In any run, the instances returned have base directories
    (and data directories) that differ from that of the backup and from
    one another. *)
Theorem spawn_primary_keeps_backup st :
  NodeBackup._available (self st) = true →
  _prepare_dir false st =
    match tempfile_mkdtemp (world st) with
    | (Raised e, w1) => (Raised e, mkSt (self st) w1)
    | (Returned d, w1) =>
        match shutil_copytree
                (os_path_join (NodeBackup.base_dir (self st)) DATA_DIR)
                (os_path_join d DATA_DIR) w1 with
        | (Raised e, w2) =>
            (Raised (BackupException "Failed to copy files" (Some e)),
             mkSt (self st) w2)
        | (Returned _, w2) => (Returned d, mkSt (self st) w2)
        end
    end ∧
  (∀ name use_logging,
     spawn_primary name (Some false) use_logging st =
       match _prepare_dir false st with
       | (Returned dir, st1) =>
           in_world (build_node name dir (default false use_logging)) st1
       | (Raised e, st1) => (Raised e, st1)
       end) ∧
  (spawn_ready st →
   ∃ d w1,
     tempfile_mkdtemp (world st) = (Returned d, w1) ∧
     ∀ name use_logging,
       copytree_fault (fs w1)
         (os_path_join (NodeBackup.base_dir (self st)) DATA_DIR)
         (os_path_join d DATA_DIR) = None →
       is_Some (select_port (bound_ports (world st))) →
       ∃ n st' N,
         spawn_primary name (Some false) use_logging st = (Returned n, st') ∧
         nodes (world st) !! n = None ∧
         nodes (world st') !! n = Some N ∧
         PostgresNode.base_dir N = d ∧
         NodeBackup._available (self st') = true ∧
         spawn_ready st') ∧
  (env_reliable → spawn_ready st →
   ∀ args rs st', spawn_many args st = (rs, st') →
     length rs = length args ∧ Forall (λ r, ∃ n, r = Returned n) rs) ∧
  (∀ d st1, _prepare_dir false st = (Returned d, st1) →
     let src := os_path_join (NodeBackup.base_dir (self st)) DATA_DIR in
     let dst := os_path_join d DATA_DIR in
     self st1 = self st ∧
     fs_lookup (fs (world st)) d = None ∧
     ∃ w1 ch,
       tempfile_mkdtemp (world st) = (Returned d, w1) ∧
       fs_lookup (fs w1) src = Some (Dir ch) ∧
       fs_lookup (fs (world st1)) dst = Some (Dir ch) ∧
       (¬ src `prefix_of` dst →
        fs_lookup (fs (world st)) src = Some (Dir ch) ∧
        fs_lookup (fs (world st1)) src = Some (Dir ch))) ∧
  (∀ name use_logging r st1,
     spawn_primary name (Some false) use_logging st = (r, st1) →
     NodeBackup._available (self st1) = true ∧
     ∀ n, r = Returned n →
       ∃ d st2 N, _prepare_dir false st = (Returned d, st2) ∧
         nodes (world st1) !! n = Some N ∧ PostgresNode.base_dir N = d) ∧
  (∀ args rs st', spawn_many args st = (rs, st') →
     NodeBackup._available (self st') = true ∧
     ∀ i ni, rs !! i = Some (Returned ni) →
       ∃ Ni, nodes (world st') !! ni = Some Ni ∧
         PostgresNode.base_dir Ni ≠ NodeBackup.base_dir (self st) ∧
         data_dir Ni ≠ os_path_join (NodeBackup.base_dir (self st)) DATA_DIR ∧
         ∀ j nj Nj, i ≠ j → rs !! j = Some (Returned nj) →
           nodes (world st') !! nj = Some Nj →
           PostgresNode.base_dir Ni ≠ PostgresNode.base_dir Nj ∧
           data_dir Ni ≠ data_dir Nj).
Proof.
  intros Ha. split_and!.
  - by apply prepare_dir_keep.
  - intros name use_logging. by rewrite spawn_primary_build_node.
  - intros Hready.
    destruct (spawn_primary_keep_returns None None st Ha Hready) as (d & w1 & Hmk & _).
    exists d, w1. split; [done|]. intros name use_logging Hfault Hport.
    destruct (spawn_primary_keep_returns name use_logging st Ha Hready)
      as (d' & w1' & Hmk' & Hok).
    assert (d' = d ∧ w1' = w1) as [-> ->] by (split; congruence).
    destruct (Hok Hfault Hport) as (st' & Hsp & Ha' & Hready').
    pose proof Hsp as Hstep.
    apply (spawn_primary_keep_step _ _ _ _ _ Ha) in Hstep as (_ & _ & _ & Hr).
    destruct (Hr _ eq_refl) as (N & HN & _ & _ & _).
    pose proof Hsp as Hsp'. rewrite spawn_primary_build_node in Hsp'.
    change (default true (Some false)) with false in Hsp'.
    rewrite (prepare_dir_keep _ Ha), Hmk in Hsp'.
    destruct (shutil_copytree _ _ w1) as [[e|[]] w2] eqn:Hcp; [done|].
    pose proof Hcp as Hcp'. apply copytree_inv in Hcp' as (_ & Hn2 & _).
    pose proof Hmk as Hmk2. apply mkdtemp_inv in Hmk2 as (_ & Hn1 & _).
    unfold in_world in Hsp'. cbn [world self] in Hsp'.
    destruct (build_node _ _ _ w2) as [r w3] eqn:Hbn. injection Hsp' as -> <-.
    apply build_node_inv in Hbn as (_ & _ & _ & Hfresh & p & s & _ & Hnodes).
    exists (fresh (dom (nodes (world st)))), (mkSt (self st) w3), N.
    split_and!; try done.
    + apply not_elem_of_dom, is_fresh.
    + cbn [world] in HN. rewrite Hnodes, lookup_insert_eq in HN. by injection HN as <-.
  - intros Henv Hready args rs st' Hm. by eapply spawn_many_all_return.
  - intros d st1 Hp. apply (prepare_dir_keep_inv _ _ _ Ha) in Hp as (Hs & _ & _ & Hr).
    destruct (Hr d eq_refl) as (? & _ & _ & ?). eauto.
  - intros name use_logging r st1. rewrite spawn_primary_build_node.
    change (default true (Some false)) with false.
    destruct (_prepare_dir false st) as [[e|d] st2] eqn:Hp;
      apply (prepare_dir_keep_inv _ _ _ Ha) in Hp as (Hs & _ & _ & _).
    { intros [= <- <-]. split; [congruence|done]. }
    unfold in_world. destruct (build_node _ _ _ _) as [r' w2] eqn:Hb.
    intros [= <- <-]. apply build_node_inv in Hb as (_ & _ & _ & Hr).
    split; [cbn; congruence|]. intros n ->. cbn beta iota in Hr.
    destruct Hr as (_ & p & s & _ & Hnodes). do 3 eexists.
    split; [done|]. cbn [world]. rewrite Hnodes, lookup_insert_eq. done.
  - intros args rs st' Hm.
    apply (spawn_many_inv _ _ _ _ Ha) in Hm as (Hs & _ & _ & Hr & Hd).
    split; [congruence|]. intros i ni Hi.
    destruct (Hr i ni Hi) as (Ni & HNi & _ & _ & Hne).
    exists Ni. split_and!; [done|done| |].
    { intros Heq. by apply os_path_join_inj in Heq. }
    intros j nj Nj Hij Hj HNj.
    assert (Hbase : PostgresNode.base_dir Ni ≠ PostgresNode.base_dir Nj).
    { destruct (decide (i < j)).
      - eapply (Hd i j); eauto.
      - intros Heq. eapply (Hd j i); eauto with lia. }
    split; [done|]. intros Heq. by apply os_path_join_inj in Heq.
Qed.

End Keep.

(** Three spawns from [backup0] with [destroy=False]: each returns an
    instance and the backup stays available. *)
Lemma spawn_primary_keeps_backup_witness :
  NodeBackup._available (self st0) = true ∧
  length (spawn_many (E:=env0) [(Some "node1", None); (Some "node2", None); (None, Some true)] st0).1 = 3 ∧
  Forall (λ r, ∃ n, r = Returned n)
    (spawn_many (E:=env0) [(Some "node1", None); (Some "node2", None); (None, Some true)] st0).1 ∧
  NodeBackup._available
    (self (spawn_many (E:=env0) [(Some "node1", None); (Some "node2", None); (None, Some true)] st0).2) = true.
Proof.
  split; [reflexivity|].
  destruct (spawn_primary_keeps_backup (E:=env0) st0 eq_refl)
    as (_ & _ & _ & Hall & _ & _ & Hmany).
  assert (Henv : env_reliable (E:=env0)).
  { split; [reflexivity|]. intros X. by eexists. }
  assert (Hready : spawn_ready (E:=env0) st0).
  { split_and!.
    - vm_compute. reflexivity.
    - eexists. split; [vm_compute; reflexivity|]. intros x. vm_compute. discriminate.
    - intros [k Hk]. discriminate Hk. }
  destruct (spawn_many _ st0) as [rs st'] eqn:Hrun.
  destruct (Hall Henv Hready _ _ _ Hrun) as [Hlen Hret].
  split_and!; [exact Hlen|exact Hret|exact (proj1 (Hmany _ _ _ Hrun))].
Defined.
